(** * htr_postprocessing: the normalisation pipeline of [htr_postprocessing.py]

    A shallow embedding of the string transformations of the pipeline
    (cleaning, abbreviation expansion, boundary-delimited replacement,
    linebreak repair, lemma-based normalisation) and the properties of
    them that the specification states.

    Python strings are lists of characters.  A character is an [ascii]
    read as a code point below 256; the character classes ([isupper],
    [lower], [\w], whitespace) are the ones Python has on these code
    points. *)

From Stdlib Require Import Ascii String.
From stdpp Require Import base option list gmap strings.

Open Scope list_scope.

(** ** Strings *)

Abbreviation str := (list ascii).

Definition lit (s : string) : str := list_ascii_of_string s.

Module PyStr.

(** [s.startswith(p)] *)
Fixpoint startswith (s p : str) : bool :=
  match p, s with
  | [], _ => true
  | _ :: _, [] => false
  | a :: p', b :: s' => if decide (a = b) then startswith s' p' else false
  end.

(** [s.endswith(p)] *)
Definition endswith (s p : str) : bool :=
  startswith (reverse s) (reverse p).

(** [s[:-k]] for a positive [k]: all but the last [k] characters, the
    empty string when [s] has at most [k] of them. *)
Definition slice_to_neg (k : nat) (s : str) : str :=
  take (length s - k) s.

(** [s[-1:]]: the last character as a string, empty for the empty string. *)
Definition last1 (s : str) : str :=
  drop (length s - 1) s.

(** The scan of [s.replace(old, new)] for a non-empty [old]: [skip] counts
    the characters of the occurrence just replaced that are still to be
    passed over. *)
Fixpoint replace_scan (old new : str) (skip : nat) (s : str) : str :=
  match s with
  | [] => []
  | c :: s' =>
      match skip with
      | S k => replace_scan old new k s'
      | O =>
          if startswith s old
          then new ++ replace_scan old new (length old - 1) s'
          else c :: replace_scan old new 0 s'
      end
  end.

(** [s.replace(old, new)]: every non-overlapping occurrence, from the left.
    With an empty [old], [new] is inserted before every character and at
    the end. *)
Definition replace (old new s : str) : str :=
  match old with
  | [] => new ++ concat (map (fun c => c :: new) s)
  | _ :: _ => replace_scan old new 0 s
  end.

(** [s.split(sep)] for a one-character separator. *)
Fixpoint split_on (sep : ascii) (s : str) : list str :=
  match s with
  | [] => [[]]
  | c :: s' =>
      if decide (c = sep) then [] :: split_on sep s'
      else match split_on sep s' with
           | [] => [[c]]
           | w :: ws => (c :: w) :: ws
           end
  end.

(** Characters are the code points below 256.  [in_range a b c]: the code
    point of [c] lies between [a] and [b]. *)
Definition in_range (a b : nat) (c : ascii) : bool :=
  let n := nat_of_ascii c in (a <=? n) && (n <=? b).

(** [c.isupper()]: the capitals A-Z and, above 127, U+00C0-U+00D6 and
    U+00D8-U+00DE. *)
Definition is_upper (c : ascii) : bool :=
  in_range 65 90 c || in_range 192 214 c || in_range 216 222 c.

(** The small letters whose capital is again a code point below 256: a-z,
    U+00E0-U+00F6 and U+00F8-U+00FE. *)
Definition has_capital (c : ascii) : bool :=
  in_range 97 122 c || in_range 224 246 c || in_range 248 254 c.

Definition lower_char (c : ascii) : ascii :=
  if is_upper c then ascii_of_nat (nat_of_ascii c + 32) else c.

Definition upper_char (c : ascii) : ascii :=
  if has_capital c then ascii_of_nat (nat_of_ascii c - 32) else c.

(** [s.lower()] *)
Definition lower (s : str) : str := map lower_char s.

(** The first character of [s.capitalize()].  The sharp s (U+00DF) becomes
    the two letters Ss; the capitals of U+00B5 and U+00FF are code points
    above 255, which the alphabet does not have: these two characters are
    left as they are. *)
Definition title_first (c : ascii) : str :=
  if bool_decide (nat_of_ascii c = 223) then lit "Ss" else [upper_char c].

(** [s.capitalize()]: first character capitalised, the others lower-cased. *)
Definition capitalize (s : str) : str :=
  match s with
  | [] => []
  | c :: s' => title_first c ++ lower s'
  end.

(** [word[0].isupper()]; [None] is the IndexError of an empty [word]. *)
Definition first_isupper (word : str) : option bool :=
  match word with
  | [] => None
  | c :: _ => Some (is_upper c)
  end.

(** The characters [s.split()] splits at: the ASCII whitespace and
    separators, U+0085 and U+00A0. *)
Definition is_space (c : ascii) : bool :=
  in_range 9 13 c || in_range 28 32 c
  || in_range 133 133 c || in_range 160 160 c.

(** [s.split()]: the maximal runs of characters that are not whitespace.
    [cur] is the run being read, reversed. *)
Fixpoint split_ws_from (cur : str) (s : str) : list str :=
  match s with
  | [] => match cur with [] => [] | _ => [reverse cur] end
  | c :: s' =>
      if is_space c
      then match cur with
           | [] => split_ws_from [] s'
           | _ => reverse cur :: split_ws_from [] s'
           end
      else split_ws_from (c :: cur) s'
  end.

Definition split_ws (s : str) : list str := split_ws_from [] s.

(** The characters [\w] matches: the underscore and the alphanumeric
    characters, which above 127 are U+00AA, U+00B2, U+00B3, U+00B5, U+00B9,
    U+00BA, U+00BC-U+00BE, U+00C0-U+00D6, U+00D8-U+00F6 and U+00F8-U+00FF. *)
Definition is_word (c : ascii) : bool :=
  in_range 48 57 c || in_range 65 90 c || in_range 97 122 c
  || bool_decide (c = "_"%char)
  || in_range 170 170 c || in_range 178 179 c || in_range 181 181 c
  || in_range 185 186 c || in_range 188 190 c
  || in_range 192 214 c || in_range 216 246 c || in_range 248 255 c.

End PyStr.

Definition nl : ascii := "010"%char.
Definition sp : ascii := " "%char.


(** ** Outcomes of the stateful stages *)

Inductive exn : Type :=
| IndexError          (* [l[i]] out of range *)
| UnboundLocalError   (* a local variable read before any assignment *)
| ReError.            (* [re.error]: the pattern is not a regular expression *)

(** [Unmodelled] marks a call of [re.sub] whose pattern or replacement is
    outside the fragment of regular expressions of module [Re] below. *)
Inductive result (A : Type) : Type :=
| Ok (a : A)
| Raise (e : exn)
| Unmodelled.

Arguments Ok {A} a.
Arguments Raise {A} e.
Arguments Unmodelled {A}.

#[global] Instance result_ret : MRet result := fun A a => Ok a.

#[global] Instance result_bind : MBind result := fun A B k r =>
  match r with
  | Ok a => k a
  | Raise e => Raise e
  | Unmodelled => Unmodelled
  end.

(** ** The fragment of [re] the pipeline is modelled on

    The words of the text are pasted into the patterns of [re.sub] as they
    are, so a word is read as a regular expression.  The fragment covers
    ordinary characters, [.] (any character but the newline) and the
    alternation [|].  A pattern that opens a group with a parenthesis and
    never closes it is refused by [re] with [re.error].  Any other pattern
    with another metacharacter, or with an empty alternative, and a
    replacement with a backslash are not modelled. *)

Module Re.

Inductive item : Type :=
| Char (c : ascii)
| AnyChar.

Definition unmodelled_metachars : str := lit "\^$*+?{}[]()".

Definition parse_item (c : ascii) : option item :=
  if bool_decide (c ∈ unmodelled_metachars) then None
  else if bool_decide (c = "."%char) then Some AnyChar
  else Some (Char c).

Definition parse_alternative (p : str) : option (list item) :=
  match p with
  | [] => None
  | _ :: _ => mapM parse_item p
  end.

(** The alternatives of the pattern, in the order they are tried. *)
Definition compile (pattern : str) : option (list (list item)) :=
  mapM parse_alternative (PyStr.split_on "|" pattern).

Definition item_matches (i : item) (c : ascii) : bool :=
  match i with
  | Char a => bool_decide (a = c)
  | AnyChar => negb (bool_decide (c = "010"%char))
  end.

Fixpoint items_match (items : list item) (s : str) : bool :=
  match items, s with
  | [], _ => true
  | _ :: _, [] => false
  | i :: items', c :: s' => item_matches i c && items_match items' s'
  end.

(** The length of the match at the head of [s]: the first alternative
    that matches. *)
Fixpoint match_here (alts : list (list item)) (s : str) : option nat :=
  match alts with
  | [] => None
  | a :: alts' => if items_match a s then Some (length a) else match_here alts' s
  end.

(** Leftmost non-overlapping matches, each replaced by [repl]. *)
Fixpoint sub_scan (alts : list (list item)) (repl : str) (skip : nat) (s : str) : str :=
  match s with
  | [] => []
  | c :: s' =>
      match skip with
      | S k => sub_scan alts repl k s'
      | O =>
          match match_here alts s with
          | Some n => repl ++ sub_scan alts repl (n - 1) s'
          | None => c :: sub_scan alts repl 0 s'
          end
      end
  end.

(** An opening parenthesis that is neither escaped nor inside a character
    class starts a group; with no closing parenthesis in the pattern the
    group is unterminated and the pattern does not compile. *)
Definition unterminated_group (pattern : str) : bool :=
  bool_decide ("("%char ∈ pattern)
  && negb (bool_decide (")"%char ∈ pattern))
  && negb (bool_decide ("\"%char ∈ pattern))
  && negb (bool_decide ("["%char ∈ pattern)).

(** [re.sub(pattern, repl, text)]: the pattern is compiled first. *)
Definition sub (pattern repl text : str) : result str :=
  if unterminated_group pattern then Raise ReError
  else
    match compile pattern with
    | None => Unmodelled
    | Some alts =>
        if bool_decide ("\"%char ∈ repl) then Unmodelled
        else Ok (sub_scan alts repl 0 text)
    end.

(** A word that stands for itself in a pattern and in a replacement. *)
Definition plain_char (c : ascii) : bool :=
  negb (bool_decide (c ∈ unmodelled_metachars))
  && negb (bool_decide (c = "."%char)) && negb (bool_decide (c = "|"%char)).

Definition plain (w : str) : bool := forallb plain_char w.

End Re.

(** ** Configuration ([config.py], read only) *)

Record config : Type := {
  characters_to_clean : list str;
  special_characters_dictionary : list str;  (* the values of the dictionary *)
  rules_for_expansion : list (str * str);    (* the items, in their order *)
  verb_endings_to_normalise : list (str * str);
  characters_to_normalise : list (str * str)
}.

(** ** TextForPostprocessing *)

Module TextForPostprocessing.

(** [clean_text]: each listed string is deleted from the text in turn. *)
Definition clean_text (characters : list str) (text : str) : str :=
  foldl (fun text character => PyStr.replace character [] text) text characters.

(** Every string of the list is one character. *)
Definition single_characters (characters : list str) : Prop :=
  Forall (fun character => length character = 1) characters.

(** [create_unique_wordlist] is [list(set(text.split()))]: the words of
    the text without repetition, in an order the program does not fix. *)
Definition unique_wordlist (text : str) (unique_words : list str) : Prop :=
  NoDup unique_words /\ forall w, w ∈ unique_words <-> w ∈ PyStr.split_ws text.

(** The three calls of [re.sub] with the word between two delimiters. *)
Definition delimited (d1 : ascii) (w : str) (d2 : ascii) : str :=
  d1 :: w ++ [d2].

(** [replace_word_in_text], for [word = [original, replacement]]. *)
Definition replace_word_in_text (word : str * str) (text : str) : result str :=
  text ← Re.sub (delimited sp word.1 sp) (delimited sp word.2 sp) text;
  text ← Re.sub (delimited nl word.1 sp) (delimited nl word.2 sp) text;
  Re.sub (delimited sp word.1 nl) (delimited sp word.2 nl) text.

(** [replace_word_in_text] for each pair of a list in turn. *)
Fixpoint replace_words_in_text (words : list (str * str)) (text : str) : result str :=
  match words with
  | [] => Ok text
  | word :: rest =>
      text ← replace_word_in_text word text;
      replace_words_in_text rest text
  end.

End TextForPostprocessing.

(** ** Expansion *)

Module Expansion.

Record t : Type := {
  special_characters : list str;
  abbreviation_dictionary : gmap str str;
  rules : list (str * str);
  expanded_words : list (str * str);
  expanded_words_errors : list (str * str)
}.

(** [__init__] *)
Definition init (special : list str) (dictionary : gmap str str)
    (rules_for_expansion : list (str * str)) : t :=
  {| special_characters := special;
     abbreviation_dictionary := dictionary;
     rules := rules_for_expansion;
     expanded_words := [];
     expanded_words_errors := [] |}.

(** [any(character in self.special_characters for character in word)] *)
Definition is_abbreviated (e : t) (word : str) : bool :=
  existsb (fun character => bool_decide ([character] ∈ special_characters e)) word.

(** The expansion by rules: every rule in turn on the running expansion. *)
Definition expand_by_rules (e : t) (word : str) : str :=
  foldl (fun expansion rule => PyStr.replace rule.1 rule.2 expansion) word (rules e).

(** [expand_abbreviation] *)
Definition expand_abbreviation (e : t) (word : str) : t :=
  if is_abbreviated e word then
    let expansion :=
      match abbreviation_dictionary e !! word with
      | Some expansion => expansion
      | None => expand_by_rules e word
      end in
    {| special_characters := special_characters e;
       abbreviation_dictionary := abbreviation_dictionary e;
       rules := rules e;
       expanded_words := expanded_words e ++ [(word, expansion)];
       expanded_words_errors := expanded_words_errors e |}
  else e.

End Expansion.

(** ** Lexicon *)

Record lexicon_row : Type := {
  WF_Name : str;
  SL_Name : str;
  L_Name : str
}.

Module Lexicon.

(** [df['WF-Name'].eq(w).any()] *)
Definition attested (df : list lexicon_row) (w : str) : bool :=
  existsb (fun row => bool_decide (WF_Name row = w)) df.

(** The first row of [df.loc[df['WF-Name'] == w]]. *)
Definition first_row (df : list lexicon_row) (w : str) : option lexicon_row :=
  find (fun row => bool_decide (WF_Name row = w)) df.

(** [proof_read_word], for [word = [original, expansion]]. *)
Definition proof_read_word (df : list lexicon_row) (word : str * str) : bool :=
  if attested df (PyStr.lower word.2) then true else false.

End Lexicon.

(** ** Normalisation *)

Record csv_row : Type := {
  Wort : str;
  Superlemma : str;
  Lemma_ : str;
  Superlemma_root : str;
  Lemma_root : str;
  Wortform : str;
  Normalisierung : str
}.

Module Normalisation.

(** *** [word_segmentation] *)

(** The longest run of word characters at the head of [s]. *)
Fixpoint word_run (s : str) : str :=
  match s with
  | c :: s' => if PyStr.is_word c then c :: word_run s' else []
  | [] => []
  end.

(** The match of [\b\w+\n\w+\b] at the head of [s], [prev] being the
    character before it: its length.  A word boundary comes first, so
    [prev] is no word character; each [\w+] takes a whole run of word
    characters, as no shorter one is followed by the newline or by a
    word boundary. *)
Definition linebreak_match (prev : option ascii) (s : str) : option nat :=
  if from_option PyStr.is_word false prev then None
  else
    let w1 := word_run s in
    match w1, drop (length w1) s with
    | _ :: _, c :: rest =>
        if bool_decide (c = nl) then
          match word_run rest with
          | [] => None
          | w2 => Some (length w1 + 1 + length w2)
          end
        else None
    | _, _ => None
    end.

(** [re.findall(pattern, text)]: the matches from the left, none
    overlapping another. *)
Fixpoint findall_scan (prev : option ascii) (skip : nat) (s : str) : list str :=
  match s with
  | [] => []
  | c :: s' =>
      match skip with
      | S k => findall_scan (Some c) k s'
      | O =>
          match linebreak_match prev s with
          | Some n => take n s :: findall_scan (Some c) (n - 1) s'
          | None => findall_scan (Some c) 0 s'
          end
      end
  end.

Definition findall_linebreaks (text : str) : list str :=
  findall_scan None 0 text.

(** One turn of the loop over the matches. *)
Definition merge_instance (df : list lexicon_row) (text instance : str) : str :=
  let evaluation_term := PyStr.replace [nl] [] instance in
  if Lexicon.attested df (PyStr.lower evaluation_term)
  then PyStr.replace instance evaluation_term text
  else text.

Definition word_segmentation (df : list lexicon_row) (text : str) : str :=
  foldl (merge_instance df) text (findall_linebreaks text).

(** *** [normalise_text] *)

Definition stopwords : list str := [lit "alea@NN"; lit "a@AP"; lit "hilla@NN"].

Definition endings : list str :=
  [lit "um"; lit "us"; lit "u"; lit "e"; lit "os"; lit "a"; lit "us";
   lit "is"; lit "es"; lit "as"].

(** [superlemma.split("@")[0]] *)
Definition base_of (superlemma : str) : str :=
  hd [] (PyStr.split_on "@" superlemma).

(** One turn of the loop over [endings]. *)
Definition strip_ending (roots : str * str) (ending : str) : str * str :=
  if PyStr.endswith roots.1 ending
  then (PyStr.slice_to_neg (length ending) roots.1,
        PyStr.slice_to_neg (length ending) roots.2)
  else roots.

(** The loop over [endings], which runs to the end of the list. *)
Definition strip_endings (superlemma lemma : str) : str * str :=
  foldl strip_ending (superlemma, lemma) endings.

Definition verb_chars_to_delete (superlemma : str) : nat :=
  if PyStr.endswith superlemma (lit "or") then 2
  else if PyStr.endswith superlemma (lit "sco") then 3
  else 1.

(** The roots for a word form: (super-lemma root, lemma root).  In the
    branch of [PRO] the test of the ending reads the super-lemma with its
    tag. *)
Definition roots_for (wordform superlemma lemma : str) : str * str :=
  if decide (wordform = lit "V") then
    let superlemma := base_of superlemma in
    let chars_to_delete := verb_chars_to_delete superlemma in
    (PyStr.slice_to_neg chars_to_delete superlemma,
     PyStr.slice_to_neg chars_to_delete lemma)
  else if decide (wordform = lit "ADV") then
    (base_of superlemma, lemma)
  else if decide (wordform = lit "PRO") then
    let chars_to_delete := if PyStr.endswith superlemma (lit "er") then 2 else 1 in
    (PyStr.slice_to_neg chars_to_delete (base_of superlemma),
     PyStr.slice_to_neg chars_to_delete lemma)
  else
    strip_endings (base_of superlemma) lemma.

(** [wordform = superlemma.split("@")[1]] and the roots. *)
Definition root_strip (superlemma lemma : str) : result (str * (str * str)) :=
  match PyStr.split_on "@" superlemma !! 1 with
  | None => Raise IndexError
  | Some wordform => Ok (wordform, roots_for wordform superlemma lemma)
  end.

(** The capitalisation of the roots and [word.replace(lemma, superlemma)]. *)
Definition surface_substitution (word superlemma lemma : str) : result str :=
  match PyStr.first_isupper word with
  | None => Raise IndexError
  | Some true =>
      Ok (PyStr.replace (PyStr.capitalize lemma) (PyStr.capitalize superlemma) word)
  | Some false => Ok (PyStr.replace lemma superlemma word)
  end.

(** The canonicalisation of the endings of a verb. *)
Definition normalise_verb_ending (cfg : config) (wordform normalised_word : str) : str :=
  if decide (wordform = lit "V") then
    foldl (fun w word_ending => PyStr.replace word_ending.1 word_ending.2 w)
      normalised_word (verb_endings_to_normalise cfg)
  else normalised_word.

(** The normalised form of [word] for a row of the lexicon, with the
    record for the CSV file. *)
Definition normalise_word (cfg : config) (word : str) (row : lexicon_row)
    : result (str * csv_row) :=
  let superlemma := SL_Name row in
  let lemma := L_Name row in
  '(wordform, (superlemma_root, lemma_root)) ← root_strip superlemma lemma;
  normalised_word ← surface_substitution word superlemma_root lemma_root;
  let normalised_word := normalise_verb_ending cfg wordform normalised_word in
  Ok (normalised_word,
      {| Wort := word; Superlemma := superlemma; Lemma_ := lemma;
         Superlemma_root := superlemma_root; Lemma_root := lemma_root;
         Wortform := wordform; Normalisierung := normalised_word |}).

(** The state of the loop of [normalise_text]: the text, the list of the
    words not found, the local [dict_normalization] ([None] before its
    first assignment) and the rows written to the CSV file. *)
Record state : Type := {
  sample_text : str;
  normalisation_error_list : list str;
  dict_normalization : option csv_row;
  csv_rows : list csv_row
}.

Definition normalise_characters (cfg : config) (text : str) : str :=
  foldl (fun text character => PyStr.replace character.1 character.2 text)
    text (characters_to_normalise cfg).

(** The end of a turn of the loop: the characters are canonicalised and
    [dict_normalization] is written to the CSV file. *)
Definition end_of_turn (cfg : config) (st : state) : state * result () :=
  let st :=
    {| sample_text := normalise_characters cfg (sample_text st);
       normalisation_error_list := normalisation_error_list st;
       dict_normalization := dict_normalization st;
       csv_rows := csv_rows st |} in
  match dict_normalization st with
  | None => (st, Raise UnboundLocalError)
  | Some row =>
      ({| sample_text := sample_text st;
          normalisation_error_list := normalisation_error_list st;
          dict_normalization := dict_normalization st;
          csv_rows := csv_rows st ++ [row] |}, Ok ())
  end.

(** The consistency test of the last characters. *)
Definition consistent (superlemma lemma : str) : bool :=
  bool_decide (PyStr.last1 (base_of superlemma) = PyStr.last1 lemma).

(** One turn of the loop over the unique words.  A [continue] leaves the
    turn with the state as it is. *)
Definition normalise_turn (df : list lexicon_row) (cfg : config)
    (st : state) (word : str) : state * result () :=
  match Lexicon.first_row df (PyStr.lower word) with
  | Some row =>
      if bool_decide (SL_Name row ∈ stopwords) then (st, Ok ())
      else if negb (consistent (SL_Name row) (L_Name row)) then (st, Ok ())
      else
        match
          '(normalised_word, record) ← normalise_word cfg word row;
          text ← TextForPostprocessing.replace_word_in_text
                   (word, normalised_word) (sample_text st);
          Ok (text, record)
        with
        | Ok (text, record) =>
            end_of_turn cfg
              {| sample_text := text;
                 normalisation_error_list := normalisation_error_list st;
                 dict_normalization := Some record;
                 csv_rows := csv_rows st |}
        | Raise e => (st, Raise e)
        | Unmodelled => (st, Unmodelled)
        end
  | None =>
      end_of_turn cfg
        {| sample_text := sample_text st;
           normalisation_error_list := normalisation_error_list st ++ [word];
           dict_normalization := dict_normalization st;
           csv_rows := csv_rows st |}
  end.

Fixpoint normalise_loop (df : list lexicon_row) (cfg : config)
    (unique_words : list str) (st : state) : state * result () :=
  match unique_words with
  | [] => (st, Ok ())
  | word :: rest =>
      match normalise_turn df cfg st word with
      | (st, Ok _) => normalise_loop df cfg rest st
      | stopped => stopped
      end
  end.

Definition initial (errors : list str) (text : str) : state :=
  {| sample_text := text;
     normalisation_error_list := errors;
     dict_normalization := None;
     csv_rows := [] |}.

(** [normalise_text], the unique words of [sample_text] taken in the order
    [unique_words]: the list of errors of the object after the call, and
    the text returned. *)
Definition normalise_text (df : list lexicon_row) (cfg : config)
    (unique_words : list str) (errors : list str) (sample_text_ : str)
    : list str * result str :=
  match normalise_loop df cfg unique_words (initial errors sample_text_) with
  | (st, Ok _) =>
      (normalisation_error_list st, Ok (normalise_characters cfg (sample_text st)))
  | (st, Raise e) => (normalisation_error_list st, Raise e)
  | (st, Unmodelled) => (normalisation_error_list st, Unmodelled)
  end.

End Normalisation.

(** ** main *)

Module Main.

(** The loop that checks the expanded words and replaces them in the
    text: the list [expanded_words_errors] after it, and the text. *)
Fixpoint check_expansions (expanded_words : list (str * str)) (text : str)
    (errors : list (str * str)) : list (str * str) * result str :=
  match expanded_words with
  | [] => (errors, Ok text)
  | word :: rest =>
      let true_or_false := true in
      if true_or_false then
        match TextForPostprocessing.replace_word_in_text word text with
        | Ok text => check_expansions rest text errors
        | stopped => (errors, stopped)
        end
      else
        match TextForPostprocessing.replace_word_in_text word text with
        | Ok text => check_expansions rest text (errors ++ [word])
        | stopped => (errors, stopped)
        end
  end.

(** The text is cleaned, its unique words are expanded and the expansions
    are replaced in the text.  [order] gives the unique words of a text in
    the order the run iterates over them. *)
Definition expansion_stage (cfg : config) (dictionary : gmap str str)
    (order : str -> list str) (raw_text : str) : list (str * str) * result str :=
  let text := TextForPostprocessing.clean_text (characters_to_clean cfg) raw_text in
  let expansions :=
    foldl Expansion.expand_abbreviation
      (Expansion.init (special_characters_dictionary cfg) dictionary
         (rules_for_expansion cfg))
      (order text) in
  check_expansions (Expansion.expanded_words expansions) text
    (Expansion.expanded_words_errors expansions).

(** The run of [main]: the errors of the expansion, the errors of the
    normalisation and the text after the normalisation. *)
Definition run (cfg : config) (dictionary : gmap str str) (df : list lexicon_row)
    (order : str -> list str) (raw_text : str)
    : list (str * str) * (list str * result str) :=
  match expansion_stage cfg dictionary order raw_text with
  | (errors, Ok text) =>
      let text := Normalisation.word_segmentation df text in
      (errors, Normalisation.normalise_text df cfg (order text) [] text)
  | (errors, Raise e) => (errors, ([], Raise e))
  | (errors, Unmodelled) => (errors, ([], Unmodelled))
  end.

End Main.

(** ** The specification's side

    The two operations the specification words differently from the
    program, and the relations the properties below are stated with. *)

Module Spec.

(** "Strip the first matching ending found": the list is left at the
    first ending that matches. *)
Fixpoint strip_first_ending (endings : list str) (superlemma lemma : str) : str * str :=
  match endings with
  | [] => (superlemma, lemma)
  | ending :: rest =>
      if PyStr.endswith superlemma ending
      then (PyStr.slice_to_neg (length ending) superlemma,
            PyStr.slice_to_neg (length ending) lemma)
      else strip_first_ending rest superlemma lemma
  end.

(** "Replace the first occurrence": the scan stops at the first
    occurrence of [old]. *)
Fixpoint replace_first (old new s : str) : str :=
  if PyStr.startswith s old then new ++ drop (length old) s
  else match s with
       | [] => []
       | c :: s' => c :: replace_first old new s'
       end.

(** [old] occurs in [s] after the prefix [a], and nowhere before. *)
Definition first_occurrence (old a b : str) : Prop :=
  forall a' b', a ++ old ++ b = a' ++ old ++ b' -> length a <= length a'.

(** [old] occurs in [s]. *)
Definition occurs_in (old s : str) : Prop :=
  exists a b, s = a ++ old ++ b.

(** [t] is [s] with every occurrence of [old] replaced by [new], the
    occurrences taken from the left and none overlapping another. *)
Inductive replaced_all (old new : str) : str -> str -> Prop :=
| replaced_none s :
    ~ occurs_in old s -> replaced_all old new s s
| replaced_next a b b' :
    first_occurrence old a b ->
    replaced_all old new b b' ->
    replaced_all old new (a ++ old ++ b) (a ++ new ++ b').

(** The words around a line break: not empty, of word characters. *)
Definition broken_pair (w1 w2 : str) : Prop :=
  w1 <> [] /\ w2 <> []
  /\ Forall (fun c => PyStr.is_word c = true) w1
  /\ Forall (fun c => PyStr.is_word c = true) w2.

(** [t] is [s] with some of the occurrences of [w] that stand between
    [d1] and [d2] rewritten to [r] between [d1] and [d2]; every other
    character of [s] is in [t] as it is. *)
Inductive rewrites_delimited (d1 d2 : ascii) (w r : str) : str -> str -> Prop :=
| rewrites_end :
    rewrites_delimited d1 d2 w r [] []
| rewrites_keep c s t :
    rewrites_delimited d1 d2 w r s t ->
    rewrites_delimited d1 d2 w r (c :: s) (c :: t)
| rewrites_occurrence s t :
    rewrites_delimited d1 d2 w r s t ->
    rewrites_delimited d1 d2 w r (d1 :: w ++ d2 :: s) (d1 :: r ++ d2 :: t).

(** A word as [str.split()] gives it has no space and no newline. *)
Definition whitespace_free (w : str) : Prop := (sp ∉ w) /\ (nl ∉ w).

End Spec.

(** ** Sample inputs *)

Module Sample.

(** A configuration with empty tables. *)
Definition empty_config : config :=
  {| characters_to_clean := [];
     special_characters_dictionary := [];
     rules_for_expansion := [];
     verb_endings_to_normalise := [];
     characters_to_normalise := [] |}.

Definition row (wf sl l : string) : lexicon_row :=
  {| WF_Name := lit wf; SL_Name := lit sl; L_Name := lit l |}.

(** A configuration that deletes "," and has the marker "~", written "n". *)
Definition tilde_config : config :=
  {| characters_to_clean := [lit ","];
     special_characters_dictionary := [lit "~"];
     rules_for_expansion := [(lit "~", lit "n")];
     verb_endings_to_normalise := [];
     characters_to_normalise := [] |}.

End Sample.

(** * Properties *)

(** ** Strings *)

Section StringFacts.

Implicit Types (s p old new : str) (c : ascii).

Lemma startswith_prefix s p : PyStr.startswith s p = true <-> p `prefix_of` s.
Proof.
  revert s; induction p as [|a p IH]; intros s; simpl.
  - split; [intros _; apply prefix_nil | by destruct s].
  - destruct s as [|b s]; simpl.
    + split; [done | intros H; by apply prefix_nil_inv in H].
    + destruct (decide (a = b)) as [->|Hne].
      * rewrite IH. split; [apply prefix_cons | apply prefix_cons_inv_2].
      * split; [done | intros H; by apply prefix_cons_inv_1 in H].
Qed.

Lemma startswith_app p s : PyStr.startswith (p ++ s) p = true.
Proof. apply startswith_prefix, prefix_app_r. done. Qed.

Lemma endswith_suffix s p : PyStr.endswith s p = true <-> p `suffix_of` s.
Proof.
  unfold PyStr.endswith. rewrite startswith_prefix.
  symmetry. apply suffix_prefix_reverse.
Qed.

Lemma endswith_decide s p :
  PyStr.endswith s p = bool_decide (p `suffix_of` s).
Proof.
  destruct (PyStr.endswith s p) eqn:E; symmetry.
  - apply bool_decide_eq_true, endswith_suffix, E.
  - apply bool_decide_eq_false. rewrite <- endswith_suffix. by rewrite E.
Qed.

Lemma slice_to_neg_app s t : PyStr.slice_to_neg (length t) (s ++ t) = s.
Proof.
  unfold PyStr.slice_to_neg. rewrite length_app.
  replace (length s + length t - length t) with (length s) by lia.
  by rewrite take_app_length.
Qed.

Lemma slice_to_neg_short k s : length s <= k -> PyStr.slice_to_neg k s = [].
Proof.
  intros H. unfold PyStr.slice_to_neg.
  replace (length s - k) with 0 by lia. done.
Qed.

Lemma slice_to_neg_length k s : length (PyStr.slice_to_neg k s) = length s - k.
Proof. unfold PyStr.slice_to_neg. rewrite length_take. lia. Qed.

(** *** [str.replace] *)

Lemma replace_scan_skip old new k s :
  PyStr.replace_scan old new k s = PyStr.replace_scan old new 0 (drop k s).
Proof.
  revert k; induction s as [|c s IH]; intros k.
  - by rewrite drop_nil.
  - destruct k as [|k]; [done|]. simpl. apply IH.
Qed.

Lemma replace_nil old new : old <> [] -> PyStr.replace old new [] = [].
Proof. by destruct old. Qed.

Lemma replace_match old new s :
  old <> [] -> PyStr.replace old new (old ++ s) = new ++ PyStr.replace old new s.
Proof.
  destruct old as [|a old]; [done|]. intros _.
  unfold PyStr.replace. change ((a :: old) ++ s) with (a :: (old ++ s)).
  cbn [PyStr.replace_scan].
  change (a :: (old ++ s)) with ((a :: old) ++ s). rewrite startswith_app.
  f_equal. rewrite replace_scan_skip. cbn [length].
  replace (S (length old) - 1) with (length old) by lia.
  by rewrite drop_app_length.
Qed.

Lemma replace_cons old new c s :
  old <> [] -> ~ old `prefix_of` c :: s ->
  PyStr.replace old new (c :: s) = c :: PyStr.replace old new s.
Proof.
  destruct old as [|a old]; [done|]. intros _ Hno.
  unfold PyStr.replace. cbn [PyStr.replace_scan].
  destruct (PyStr.startswith (c :: s) (a :: old)) eqn:E; [|done].
  by apply startswith_prefix in E.
Qed.

Lemma occurs_in_cons old c s :
  Spec.occurs_in old (c :: s) -> old `prefix_of` c :: s \/ Spec.occurs_in old s.
Proof.
  intros (a & b & H). destruct a as [|c' a].
  - left. exists b. done.
  - right. exists a, b. by injection H.
Qed.

Lemma replace_absent old new s :
  old <> [] -> ~ Spec.occurs_in old s -> PyStr.replace old new s = s.
Proof.
  intros Hold. induction s as [|c s IH]; intros Hno.
  - by apply replace_nil.
  - rewrite replace_cons; [f_equal; apply IH| done |].
    + intros (a & b & ->). apply Hno. exists (c :: a), b. done.
    + intros (b & Hb). apply Hno. exists [], b. done.
Qed.

Lemma replace_first_occurrence old new a b :
  old <> [] -> Spec.first_occurrence old a b ->
  PyStr.replace old new (a ++ old ++ b) = a ++ new ++ PyStr.replace old new b.
Proof.
  intros Hold. induction a as [|c a IH]; intros Hfirst.
  - cbn [app]. by apply replace_match.
  - cbn [app]. rewrite replace_cons; [f_equal; apply IH | done |].
    + intros a' b' E. specialize (Hfirst (c :: a') b').
      cbn in Hfirst. rewrite E in Hfirst. specialize (Hfirst eq_refl). lia.
    + intros (b' & Hb'). specialize (Hfirst [] b' Hb'). cbn in Hfirst. lia.
Qed.

(** Either [old] does not occur in [s], or it has a first occurrence. *)
Lemma first_occurrence_dec old s :
  ~ Spec.occurs_in old s \/
  exists a b, s = a ++ old ++ b /\ Spec.first_occurrence old a b.
Proof.
  induction s as [|c s IH].
  - destruct old as [|o old].
    + right. exists [], []. split; [done|]. intros a' b' _. cbn. lia.
    + left. intros (a & b & H). by destruct a.
  - destruct (decide (old `prefix_of` c :: s)) as [[b Hb]|Hno].
    + right. exists [], b. split; [done|]. intros a' b' _. cbn. lia.
    + destruct IH as [IH|(a & b & -> & Hfirst)].
      * left. intros H. apply occurs_in_cons in H as [H|H]; tauto.
      * right. exists (c :: a), b. split; [done|].
        intros a' b' E. destruct a' as [|c' a'].
        -- exfalso. apply Hno. exists b'. done.
        -- injection E as -> E. apply Hfirst in E. cbn. lia.
Qed.

(** [str.replace] replaces every occurrence. *)
Lemma replace_replaced_all old new s :
  old <> [] -> Spec.replaced_all old new s (PyStr.replace old new s).
Proof.
  intros Hold. remember (length s) as n eqn:Hn.
  revert s Hn. induction n as [n IH] using lt_wf_ind. intros s ->.
  destruct (first_occurrence_dec old s) as [Hno|(a & b & -> & Hfirst)].
  - rewrite replace_absent by done. by constructor.
  - rewrite replace_first_occurrence by done. constructor; [done|].
    apply (IH (length b)); [|done].
    rewrite !length_app. destruct old; [done|]. cbn. lia.
Qed.

(** The relation has one outcome, so it says what [str.replace] gives. *)
Lemma replaced_all_functional old new s t1 t2 :
  Spec.replaced_all old new s t1 -> Spec.replaced_all old new s t2 -> t1 = t2.
Proof.
  intros H1. revert t2.
  induction H1 as [s Hno|a b b1 Hfirst H1 IH]; intros t2 H2.
  - inversion H2 as [|a b b2 _ _ E]; [done|]. subst.
    exfalso. apply Hno. by exists a, b.
  - inversion H2 as [? Hno|a' b' b2 Hfirst' H2' E]; subst.
    + exfalso. apply Hno. by exists a, b.
    + pose proof (Hfirst _ _ (eq_sym E)). pose proof (Hfirst' _ _ E).
      apply app_inj_1 in E as [-> E]; [|lia].
      apply app_inv_head in E as ->. f_equal. f_equal. by apply IH.
Qed.

End StringFacts.

(** ** Root stripping *)

Section RootStripping.

Implicit Types (superlemma lemma base : str).

(** C6. For a super-lemma tagged [V], the root is the base without its
    last 2 characters when the base ends in "or", without its last 3
    when it ends in "sco", without its last one otherwise, and the lemma
    loses the same number of characters. *)
Theorem verb_root_strip superlemma lemma :
  PyStr.split_on "@" superlemma !! 1 = Some (lit "V") ->
  let base := Normalisation.base_of superlemma in
  let k := if decide (lit "or" `suffix_of` base) then 2
           else if decide (lit "sco" `suffix_of` base) then 3
           else 1 in
  Normalisation.root_strip superlemma lemma
  = Ok (lit "V", (take (length base - k) base, take (length lemma - k) lemma)).
Proof.
  intros Htag base k. unfold Normalisation.root_strip. rewrite Htag.
  unfold Normalisation.roots_for. rewrite decide_True by done.
  unfold Normalisation.verb_chars_to_delete, PyStr.slice_to_neg.
  fold base. rewrite !endswith_decide. subst k.
  repeat case_bool_decide; repeat case_decide; done.
Qed.

(** The examples of C6: "amor" strips to "am", "cresco" to "cre" and
    "amo" to "am". *)
Lemma verb_root_strip_examples :
  Normalisation.root_strip (lit "amor@V") (lit "amor")
    = Ok (lit "V", (lit "am", lit "am"))
  /\ Normalisation.root_strip (lit "cresco@V") (lit "cresco")
    = Ok (lit "V", (lit "cre", lit "cre"))
  /\ Normalisation.root_strip (lit "amo@V") (lit "amo")
    = Ok (lit "V", (lit "am", lit "am")).
Proof.
  split; [|split].
  - rewrite (verb_root_strip (lit "amor@V") (lit "amor") eq_refl). reflexivity.
  - rewrite (verb_root_strip (lit "cresco@V") (lit "cresco") eq_refl). reflexivity.
  - rewrite (verb_root_strip (lit "amo@V") (lit "amo") eq_refl). reflexivity.
Defined.

End RootStripping.

(** C1. The loop over the endings does not stop at the first ending that
    matches.  For the super-lemma "causa@NN" with the lemma "caussa" it
    strips "a" and then, from the base already stripped, "us": the roots
    are "ca" and "cau", where stripping the first matching ending only
    gives "caus" and "causs".  For "dominus" a single ending matches and
    the root is "domin". *)
Theorem noun_root_strip_strips_twice :
  Normalisation.root_strip (lit "causa@NN") (lit "caussa")
    = Ok (lit "NN", (lit "ca", lit "cau"))
  /\ Spec.strip_first_ending Normalisation.endings (lit "causa") (lit "caussa")
    = (lit "caus", lit "causs")
  /\ Normalisation.root_strip (lit "dominus@NN") (lit "dominus")
    = Ok (lit "NN", (lit "domin", lit "domin")).
Proof. split; [|split]; vm_compute; reflexivity. Qed.

(** ** Surface substitution *)

(** C2, as amended.  The surface substitution replaces every occurrence of
    the lemma root (capitalised when the token starts with a capital) in
    the token by the super-lemma root, the occurrences taken from the left
    and none overlapping another; an empty lemma root is replaced before
    every character and at the end. *)
Theorem surface_substitution_replaces_all (c : ascii) (w superlemma lemma : str) :
  let word := c :: w in
  let old := if PyStr.is_upper c then PyStr.capitalize lemma else lemma in
  let new := if PyStr.is_upper c then PyStr.capitalize superlemma else superlemma in
  exists normalised_word,
    Normalisation.surface_substitution word superlemma lemma = Ok normalised_word
    /\ (old <> [] -> Spec.replaced_all old new word normalised_word)
    /\ (old = [] -> normalised_word = new ++ concat (map (fun x => x :: new) word)).
Proof.
  intros word old new. exists (PyStr.replace old new word). split; [|split].
  - unfold Normalisation.surface_substitution, word, old, new. cbn.
    by destruct (PyStr.is_upper c).
  - intros Hold. by apply replace_replaced_all.
  - intros ->. reflexivity.
Qed.

(** The token "jamjam" with the lemma root "jam" and the super-lemma root
    "iam": both occurrences are replaced. *)
Lemma surface_substitution_jamjam :
  exists normalised_word,
    Normalisation.surface_substitution (lit "jamjam") (lit "iam") (lit "jam")
      = Ok normalised_word
    /\ (lit "jam" <> [] ->
        Spec.replaced_all (lit "jam") (lit "iam") (lit "jamjam") normalised_word)
    /\ (lit "jam" = [] ->
        normalised_word
        = lit "iam" ++ concat (map (fun x => x :: lit "iam") (lit "jamjam"))).
Proof. exact (surface_substitution_replaces_all "j" (lit "amjam") (lit "iam") (lit "jam")). Defined.

(** C2 as stated fails: in "jamjam" the second occurrence of the lemma
    "jam" is replaced too, so the normalised word is "iamiam" and not the
    "iamjam" that replacing the first occurrence alone gives. *)
Lemma surface_substitution_not_first_only :
  Normalisation.surface_substitution (lit "jamjam") (lit "iam") (lit "jam")
    = Ok (lit "iamiam")
  /\ Spec.replace_first (lit "jam") (lit "iam") (lit "jamjam") = lit "iamjam"
  /\ Normalisation.normalise_word Sample.empty_config (lit "jamjam")
       (Sample.row "jamjam" "iam@ADV" "jam")
    = Ok (lit "iamiam",
          {| Wort := lit "jamjam"; Superlemma := lit "iam@ADV"; Lemma_ := lit "jam";
             Superlemma_root := lit "iam"; Lemma_root := lit "jam";
             Wortform := lit "ADV"; Normalisierung := lit "iamiam" |})
  /\ lit "iamiam" <> lit "iamjam".
Proof. split; [|split; [|split]]; try (vm_compute; reflexivity). discriminate. Qed.

(** ** Lookup misses in [normalise_text] *)

Lemma first_row_attested df w :
  Lexicon.attested df w = true <-> is_Some (Lexicon.first_row df w).
Proof.
  unfold Lexicon.attested, Lexicon.first_row.
  induction df as [|row df IH]; cbn.
  - split; [done | by intros [? ?]].
  - destruct (bool_decide (WF_Name row = w)); cbn; [|done].
    split; [by eexists | done].
Qed.

Lemma first_row_unattested df w :
  Lexicon.attested df w = false -> Lexicon.first_row df w = None.
Proof.
  intros H. destruct (Lexicon.first_row df w) eqn:E; [|done].
  assert (Lexicon.attested df w = true) as H' by (apply first_row_attested; by eexists).
  congruence.
Qed.

(** C3.  A lookup miss on the first unique word is fatal: the word is
    appended to the list of errors and then the turn writes
    [dict_normalization], which no earlier turn has assigned, to the CSV
    file, so [normalise_text] raises UnboundLocalError and the words after
    it are not processed. *)
Theorem first_lookup_miss_raises df cfg word rest errors text :
  Lexicon.attested df (PyStr.lower word) = false ->
  Normalisation.normalise_text df cfg (word :: rest) errors text
  = (errors ++ [word], Raise UnboundLocalError).
Proof.
  intros Hmiss. unfold Normalisation.normalise_text. cbn [Normalisation.normalise_loop].
  unfold Normalisation.normalise_turn. rewrite (first_row_unattested _ _ Hmiss).
  reflexivity.
Qed.

(** The text "foo bar" with an empty lexicon. *)
Lemma first_lookup_miss_foo :
  Lexicon.attested [] (PyStr.lower (lit "foo")) = false
  /\ Normalisation.normalise_text [] Sample.empty_config [lit "foo"; lit "bar"] []
       (lit "foo bar")
     = ([] ++ [lit "foo"], Raise UnboundLocalError).
Proof.
  split; [reflexivity|].
  apply (first_lookup_miss_raises [] Sample.empty_config (lit "foo") [lit "bar"] []
           (lit "foo bar")).
  reflexivity.
Defined.

(** The two orders of the unique words of "foo bar". *)
Example unique_wordlist_foo_bar :
  TextForPostprocessing.unique_wordlist (lit "foo bar") [lit "foo"; lit "bar"]
  /\ TextForPostprocessing.unique_wordlist (lit "foo bar") [lit "bar"; lit "foo"].
Proof.
  unfold TextForPostprocessing.unique_wordlist.
  change (PyStr.split_ws (lit "foo bar")) with [lit "foo"; lit "bar"].
  split; split.
  - apply NoDup_cons. split; [|apply NoDup_singleton].
    rewrite list_elem_of_singleton. discriminate.
  - done.
  - apply NoDup_cons. split; [|apply NoDup_singleton].
    rewrite list_elem_of_singleton. discriminate.
  - intros w. rewrite !elem_of_cons, !elem_of_nil.
    split; (intros [H|[H|H]]; [right; by left | by left | done]).
Qed.

(** After a first word that is found, a miss is not fatal: the record of
    the word before is written again. *)
Example later_lookup_miss_continues :
  Normalisation.normalise_text [Sample.row "jam" "iam@ADV" "jam"] Sample.empty_config
    [lit "jam"; lit "foo"] [] (lit "x jam foo")
  = ([lit "foo"], Ok (lit "x iam foo")).
Proof. vm_compute. reflexivity. Qed.

(** ** Cleaning *)

Section Cleaning.

Implicit Types (text : str) (characters : list str).

Lemma replace_char_filter c text :
  PyStr.replace [c] [] text = filter (fun x => x <> c) text.
Proof.
  induction text as [|x text IH]; [done|].
  destruct (decide (x = c)) as [->|Hne].
  - change (c :: text) with ([c] ++ text). rewrite replace_match by done.
    cbn [app]. rewrite filter_cons_False by (intros H; by apply H). apply IH.
  - rewrite replace_cons; [| done |].
    + rewrite filter_cons_True by done. by f_equal.
    + intros H. apply prefix_cons_inv_1 in H. congruence.
Qed.

Lemma clean_text_filter characters text :
  TextForPostprocessing.single_characters characters ->
  TextForPostprocessing.clean_text characters text
  = filter (fun x => [x] ∉ characters) text.
Proof.
  unfold TextForPostprocessing.clean_text.
  revert text. induction characters as [|ch characters IH]; intros text Hsingle.
  - cbn. induction text as [|x text IHt]; [done|].
    rewrite filter_cons_True by apply not_elem_of_nil. by f_equal.
  - inversion Hsingle as [|? ? Hlen Hrest]; subst.
    destruct ch as [|c [|? ?]]; try done.
    cbn [foldl]. rewrite IH by done. rewrite replace_char_filter.
    rewrite list_filter_filter. apply list_filter_iff. intros x.
    rewrite not_elem_of_cons. split.
    + intros [? ?]. split; [congruence | done].
    + intros [? ?]. split; [done | congruence].
Qed.

(** C9.  For a list of single characters, cleaning a cleaned text
    changes nothing, and the characters can be deleted in any order. *)
Theorem clean_text_idempotent_any_order characters characters' text :
  TextForPostprocessing.single_characters characters ->
  characters ≡ₚ characters' ->
  TextForPostprocessing.clean_text characters
    (TextForPostprocessing.clean_text characters text)
  = TextForPostprocessing.clean_text characters text
  /\ TextForPostprocessing.clean_text characters' text
    = TextForPostprocessing.clean_text characters text.
Proof.
  intros Hsingle Hperm.
  assert (TextForPostprocessing.single_characters characters') as Hsingle'.
  { unfold TextForPostprocessing.single_characters. by rewrite <- Hperm. }
  rewrite !clean_text_filter by done. split.
  - rewrite list_filter_filter. apply list_filter_iff. tauto.
  - apply list_filter_iff. intros x. by rewrite Hperm.
Qed.

(** The characters ",", "." and ";" deleted from "a,b.;c," and the
    order ";", ",", ".". *)
Lemma clean_text_punctuation :
  TextForPostprocessing.clean_text [lit ","; lit "."; lit ";"]
    (TextForPostprocessing.clean_text [lit ","; lit "."; lit ";"] (lit "a,b.;c,"))
  = TextForPostprocessing.clean_text [lit ","; lit "."; lit ";"] (lit "a,b.;c,")
  /\ TextForPostprocessing.clean_text [lit ";"; lit ","; lit "."] (lit "a,b.;c,")
    = TextForPostprocessing.clean_text [lit ","; lit "."; lit ";"] (lit "a,b.;c,").
Proof.
  apply clean_text_idempotent_any_order.
  - repeat constructor.
  - symmetry. apply (Permutation_cons_append [lit ","; lit "."] (lit ";")).
Defined.

(** A listed string of two characters is outside C9: deleting "ab" is
    not idempotent, and its order with "c" matters. *)
Example clean_text_two_characters :
  TextForPostprocessing.clean_text [lit "ab"] (lit "aabb") = lit "ab"
  /\ TextForPostprocessing.clean_text [lit "ab"] (lit "ab") = lit ""
  /\ TextForPostprocessing.clean_text [lit "ab"; lit "c"] (lit "acb") = lit "ab"
  /\ TextForPostprocessing.clean_text [lit "c"; lit "ab"] (lit "acb") = lit "".
Proof. split; [|split; [|split]]; vm_compute; reflexivity. Qed.

End Cleaning.

(** ** Abbreviations *)

Section Abbreviations.

Implicit Types (e : Expansion.t) (word : str).

Lemma is_abbreviated_marker e word :
  Expansion.is_abbreviated e word = true <->
  exists character, character ∈ word /\ [character] ∈ Expansion.special_characters e.
Proof.
  unfold Expansion.is_abbreviated. rewrite existsb_exists. split.
  - intros (c & Hin & Hc). exists c. split; [by apply list_elem_of_In|].
    by apply bool_decide_eq_true in Hc.
  - intros (c & Hin & Hc). exists c. split; [by apply list_elem_of_In|].
    by apply bool_decide_eq_true.
Qed.

(** C7.  A pair (word, expansion) is appended to [expanded_words] if and
    only if a character of the word is one of the marker characters.
    The expansion is the entry of the dictionary for the word when there
    is one, and otherwise the word with every rule applied in the order
    of the rules; the pair is appended whatever the expansion is, and
    nothing else of the object changes. *)
Theorem expand_abbreviation_appends_iff_marker e word :
  let e' := Expansion.expand_abbreviation e word in
  let marked :=
    exists character,
      character ∈ word /\ [character] ∈ Expansion.special_characters e in
  let expansion :=
    match Expansion.abbreviation_dictionary e !! word with
    | Some entry => entry
    | None =>
        foldl (fun expansion rule => PyStr.replace rule.1 rule.2 expansion)
          word (Expansion.rules e)
    end in
  (marked ->
     Expansion.expanded_words e' = Expansion.expanded_words e ++ [(word, expansion)])
  /\ (~ marked -> Expansion.expanded_words e' = Expansion.expanded_words e)
  /\ (marked <-> Expansion.expanded_words e' <> Expansion.expanded_words e)
  /\ Expansion.expanded_words_errors e' = Expansion.expanded_words_errors e
  /\ Expansion.special_characters e' = Expansion.special_characters e
  /\ Expansion.abbreviation_dictionary e' = Expansion.abbreviation_dictionary e
  /\ Expansion.rules e' = Expansion.rules e.
Proof.
  intros e' marked expansion. subst e'. unfold Expansion.expand_abbreviation.
  destruct (Expansion.is_abbreviated e word) eqn:E.
  - assert marked as Hm by (by apply is_abbreviated_marker).
    cbn. repeat split; try done.
    intros _ Heq. apply (f_equal length) in Heq.
    rewrite length_app in Heq. cbn in Heq. lia.
  - assert (~ marked) as Hm.
    { intros Hm. apply is_abbreviated_marker in Hm. congruence. }
    repeat split; done.
Qed.

(** The marker "~", the dictionary entry of "d~s" and the rule that
    writes "~" as "n"; "x~" with a rule that does not change it. *)
Example expand_abbreviation_examples :
  let e := Expansion.init [lit "~"] {[ lit "d~s" := lit "dominus" ]} [(lit "~", lit "n")] in
  let e0 := Expansion.init [lit "~"] ∅ [(lit "#", lit "n")] in
  Expansion.expanded_words (Expansion.expand_abbreviation e (lit "d~s"))
    = [(lit "d~s", lit "dominus")]
  /\ Expansion.expanded_words (Expansion.expand_abbreviation e (lit "a~~us"))
    = [(lit "a~~us", lit "annus")]
  /\ Expansion.expanded_words (Expansion.expand_abbreviation e (lit "dns")) = []
  /\ Expansion.expanded_words (Expansion.expand_abbreviation e0 (lit "x~"))
    = [(lit "x~", lit "x~")].
Proof. cbv zeta. split; [|split; [|split]]; vm_compute; reflexivity. Qed.

Lemma expand_all_errors e unique_words :
  Expansion.expanded_words_errors (foldl Expansion.expand_abbreviation e unique_words)
  = Expansion.expanded_words_errors e.
Proof.
  revert e. induction unique_words as [|word rest IH]; intros e; [done|].
  cbn [foldl]. rewrite IH. unfold Expansion.expand_abbreviation.
  by destruct (Expansion.is_abbreviated e word).
Qed.

End Abbreviations.

(** ** The errors of the expansion *)

Section ExpansionErrors.

Lemma check_expansions_applies_all expanded_words text errors :
  Main.check_expansions expanded_words text errors
  = (errors, TextForPostprocessing.replace_words_in_text expanded_words text).
Proof.
  revert text. induction expanded_words as [|word rest IH]; intros text; [done|].
  cbn [Main.check_expansions TextForPostprocessing.replace_words_in_text].
  destruct (TextForPostprocessing.replace_word_in_text word text); cbn; [apply IH|done..].
Qed.

(** The list [expanded_words_errors] is empty when the expanded words have
    been checked, and stays so to the end of the run, whatever the words
    are: every pair of [expanded_words] takes the branch of the valid
    expansions. *)
Lemma expansion_errors_empty cfg dictionary df order raw_text :
  let text := TextForPostprocessing.clean_text (characters_to_clean cfg) raw_text in
  let expansions :=
    foldl Expansion.expand_abbreviation
      (Expansion.init (special_characters_dictionary cfg) dictionary
         (rules_for_expansion cfg))
      (order text) in
  Main.expansion_stage cfg dictionary order raw_text
  = ([], TextForPostprocessing.replace_words_in_text
           (Expansion.expanded_words expansions) text)
  /\ fst (Main.run cfg dictionary df order raw_text) = [].
Proof.
  intros text expansions.
  assert (Main.expansion_stage cfg dictionary order raw_text
          = ([], TextForPostprocessing.replace_words_in_text
                   (Expansion.expanded_words expansions) text)) as Hstage.
  { unfold Main.expansion_stage. fold text. fold expansions.
    rewrite check_expansions_applies_all. f_equal.
    unfold expansions. by rewrite expand_all_errors. }
  split; [done|]. unfold Main.run. rewrite Hstage.
  by destruct (TextForPostprocessing.replace_words_in_text _ _).
Qed.

(** C8.  The list of errors of the expansion stays empty, but not every
    resolved pair is replaced in the text.  With the marker "~" written
    "n", the words "(a~" and "b~" of the text "x (a~ b~ y" are resolved to
    "(an" and "bn".  The first of them is pasted into the pattern of
    [re.sub] as it is and opens a group that nothing closes: the run stops
    there with [re.error], and "b~" is never replaced.  Without the
    parenthesis both words are replaced. *)
Theorem expansion_stops_at_open_parenthesis :
  let expansions text :=
    foldl Expansion.expand_abbreviation
      (Expansion.init [lit "~"] ∅ [(lit "~", lit "n")]) (PyStr.split_ws text) in
  Expansion.expanded_words (expansions (lit "x (a~ b~ y"))
  = [(lit "(a~", lit "(an"); (lit "b~", lit "bn")]
  /\ TextForPostprocessing.replace_word_in_text (lit "(a~", lit "(an") (lit "x (a~ b~ y")
     = Raise ReError
  /\ Main.expansion_stage Sample.tilde_config ∅ PyStr.split_ws (lit "x (a~ b~ y")
     = ([], Raise ReError)
  /\ Main.run Sample.tilde_config ∅ [] PyStr.split_ws (lit "x (a~ b~ y")
     = ([], ([], Raise ReError))
  /\ Main.expansion_stage Sample.tilde_config ∅ PyStr.split_ws (lit "x a~ b~ y")
     = ([], Ok (lit "x an bn y")).
Proof. cbv zeta. repeat split; vm_compute; reflexivity. Qed.

End ExpansionErrors.

(** ** Word segmentation *)

Section Segmentation.

Implicit Types (df : list lexicon_row) (text inst w : str).

Lemma word_run_words s : Forall (fun c => PyStr.is_word c = true) (Normalisation.word_run s).
Proof.
  induction s as [|c s IH]; cbn; [constructor|].
  destruct (PyStr.is_word c) eqn:E; by constructor.
Qed.

Lemma word_run_split s :
  s = Normalisation.word_run s ++ drop (length (Normalisation.word_run s)) s.
Proof.
  induction s as [|c s IH]; cbn; [done|].
  destruct (PyStr.is_word c); cbn; [by f_equal | done].
Qed.

Lemma word_run_app w s :
  Forall (fun c => PyStr.is_word c = true) w ->
  Normalisation.word_run (w ++ s) = w ++ Normalisation.word_run s.
Proof.
  induction 1 as [|c w Hc _ IH]; cbn; [done|]. rewrite Hc. by f_equal.
Qed.

Lemma words_without_newline w :
  Forall (fun c => PyStr.is_word c = true) w -> filter (fun c => c <> nl) w = w.
Proof.
  induction 1 as [|c w Hc _ IH]; [done|].
  rewrite filter_cons_True; [by f_equal|]. by intros ->.
Qed.

Lemma linebreak_match_shape prev s n :
  Normalisation.linebreak_match prev s = Some n ->
  exists w1 w2, take n s = w1 ++ nl :: w2 /\ Spec.broken_pair w1 w2.
Proof.
  unfold Normalisation.linebreak_match.
  destruct (from_option PyStr.is_word false prev); [done|].
  pose proof (word_run_words s) as Hw1. pose proof (word_run_split s) as Hs.
  destruct (Normalisation.word_run s) as [|a w1] eqn:E1; [by destruct (drop _ _)|].
  destruct (drop (length (a :: w1)) s) as [|c rest] eqn:E2; [done|].
  case_bool_decide as Hc; [subst c|done].
  pose proof (word_run_words rest) as Hw2. pose proof (word_run_split rest) as Hrest.
  destruct (Normalisation.word_run rest) as [|b w2] eqn:E3; [done|].
  intros [= <-]. exists (a :: w1), (b :: w2). split; [|by repeat split].
  rewrite Hs. set (tail := drop (length (b :: w2)) rest) in Hrest. rewrite Hrest.
  replace ((a :: w1) ++ nl :: (b :: w2) ++ tail)
    with (((a :: w1) ++ nl :: b :: w2) ++ tail) by (by rewrite <- app_assoc).
  etrans; [|apply take_app_length]. f_equal. rewrite length_app. cbn. lia.
Qed.

Lemma findall_scan_shape prev skip s inst :
  inst ∈ Normalisation.findall_scan prev skip s ->
  exists w1 w2, inst = w1 ++ nl :: w2 /\ Spec.broken_pair w1 w2.
Proof.
  revert prev skip. induction s as [|c s IH]; intros prev skip; cbn.
  - by intros ?%elem_of_nil.
  - destruct skip as [|k]; [|apply IH].
    destruct (Normalisation.linebreak_match prev (c :: s)) as [n|] eqn:E; [|apply IH].
    intros [->|Hin]%elem_of_cons; [|by eapply IH].
    by eapply linebreak_match_shape.
Qed.

Lemma findall_scan_skipped prev skip s :
  length s <= skip -> Normalisation.findall_scan prev skip s = [].
Proof.
  revert prev skip. induction s as [|c s IH]; intros prev skip Hlen; [done|].
  cbn in Hlen. destruct skip as [|k]; [lia|]. cbn. apply IH. lia.
Qed.

Lemma findall_broken_pair w1 w2 :
  Spec.broken_pair w1 w2 -> Normalisation.findall_linebreaks (w1 ++ nl :: w2) = [w1 ++ nl :: w2].
Proof.
  intros (Hne1 & Hne2 & Hw1 & Hw2).
  assert (Normalisation.linebreak_match None (w1 ++ nl :: w2)
          = Some (length (w1 ++ nl :: w2))) as Hmatch.
  { unfold Normalisation.linebreak_match. cbn [from_option].
    rewrite word_run_app by done. cbn [Normalisation.word_run].
    change (PyStr.is_word nl) with false. cbv iota. rewrite app_nil_r.
    destruct w1 as [|a w1]; [done|]. rewrite drop_app_length.
    rewrite bool_decide_eq_true_2 by done.
    rewrite <- (app_nil_r w2) at 1. rewrite word_run_app by done.
    cbn [Normalisation.word_run]. rewrite app_nil_r.
    destruct w2 as [|b w2]; [done|]. f_equal. rewrite length_app. cbn. lia. }
  unfold Normalisation.findall_linebreaks.
  destruct w1 as [|a w1]; [done|]. cbn [app Normalisation.findall_scan].
  cbn [app] in Hmatch. rewrite Hmatch. rewrite firstn_all.
  rewrite findall_scan_skipped; [done|]. cbn. lia.
Qed.

Lemma merge_none_attested df text (instances : list str) :
  (forall inst, inst ∈ instances ->
     Lexicon.attested df (PyStr.lower (PyStr.replace [nl] [] inst)) = false) ->
  foldl (Normalisation.merge_instance df) text instances = text.
Proof.
  induction instances as [|inst instances IH]; intros Hno; [done|].
  cbn [foldl]. unfold Normalisation.merge_instance at 2.
  rewrite Hno by apply list_elem_of_here.
  apply IH. intros ? ?. apply Hno. by apply list_elem_of_further.
Qed.

Lemma merged_broken_pair w1 w2 :
  Spec.broken_pair w1 w2 -> PyStr.replace [nl] [] (w1 ++ nl :: w2) = w1 ++ w2.
Proof.
  intros (_ & _ & Hw1 & Hw2). rewrite replace_char_filter, filter_app.
  rewrite filter_cons_False by (intros H; by apply H).
  by rewrite !words_without_newline.
Qed.

Lemma replace_whole old new : old <> [] -> PyStr.replace old new old = new.
Proof.
  intros Hold. rewrite <- (app_nil_r old) at 2.
  rewrite replace_match, replace_nil by done. apply app_nil_r.
Qed.

(** On a text that is one broken pair the repair merges the pair if and
    only if the joined words are, in lower case, in the lexicon. *)
Lemma word_segmentation_single_pair df w1 w2 :
  Spec.broken_pair w1 w2 ->
  Normalisation.word_segmentation df (w1 ++ nl :: w2)
  = if Lexicon.attested df (PyStr.lower (w1 ++ w2)) then w1 ++ w2 else w1 ++ nl :: w2.
Proof.
  intros Hpair. unfold Normalisation.word_segmentation.
  rewrite findall_broken_pair by done. cbn [foldl].
  unfold Normalisation.merge_instance. rewrite merged_broken_pair by done.
  destruct (Lexicon.attested df (PyStr.lower (w1 ++ w2))); [|done].
  apply replace_whole. by destruct w1.
Qed.

(** A text none of whose matches is attested is returned as it is. *)
Lemma word_segmentation_none_attested df text :
  (forall w1 w2, w1 ++ nl :: w2 ∈ Normalisation.findall_linebreaks text ->
     Spec.broken_pair w1 w2 ->
     Lexicon.attested df (PyStr.lower (w1 ++ w2)) = false) ->
  Normalisation.word_segmentation df text = text.
Proof.
  intros Hnone. apply merge_none_attested. intros inst Hin.
  destruct (findall_scan_shape _ _ _ _ Hin) as (w1 & w2 & -> & Hpair).
  rewrite merged_broken_pair by done. by apply Hnone.
Qed.

(** The example of the specification: "reg", newline, "num" is merged
    with a lexicon that has "regnum", and left with one that has not. *)
Example word_segmentation_regnum :
  Normalisation.word_segmentation [Sample.row "regnum" "regnum@NN" "regnum"]
    (lit "reg" ++ nl :: lit "num") = lit "regnum"
  /\ Normalisation.word_segmentation [Sample.row "rex" "rex@NN" "rex"]
    (lit "reg" ++ nl :: lit "num") = lit "reg" ++ nl :: lit "num".
Proof.
  assert (Spec.broken_pair (lit "reg") (lit "num")) as Hpair.
  { repeat split; try done; repeat constructor. }
  split; rewrite (word_segmentation_single_pair _ _ _ Hpair); reflexivity.
Qed.

(** C4.  The pairs whose line break the repair deletes are not the pairs
    whose joined words are in the lexicon.  With "inde" alone in the
    lexicon, the matches of "in", newline, "de fin", newline, "dere" are
    "in", newline, "de" and "fin", newline, "dere"; the first is attested
    and is replaced wherever its characters stand, also inside the second
    pair, which becomes "findere", a word that is not in the lexicon.
    With "bc" in the lexicon the pair "b", newline, "c" of the text "a",
    newline, "b", newline, "c" is not merged: the scan has taken "b" into
    its first match, and the pair is never looked up. *)
Theorem word_segmentation_not_iff_attested :
  (Normalisation.findall_linebreaks (lit "in" ++ nl :: lit "de fin" ++ nl :: lit "dere")
   = [lit "in" ++ nl :: lit "de"; lit "fin" ++ nl :: lit "dere"]
   /\ Lexicon.attested [Sample.row "inde" "inde@ADV" "inde"]
        (PyStr.lower (lit "findere")) = false
   /\ Normalisation.word_segmentation [Sample.row "inde" "inde@ADV" "inde"]
        (lit "in" ++ nl :: lit "de fin" ++ nl :: lit "dere")
      = lit "inde findere")
  /\ (Normalisation.findall_linebreaks (lit "a" ++ nl :: lit "b" ++ nl :: lit "c")
      = [lit "a" ++ nl :: lit "b"]
      /\ Lexicon.attested [Sample.row "bc" "bc@NN" "bc"] (PyStr.lower (lit "bc")) = true
      /\ Normalisation.word_segmentation [Sample.row "bc" "bc@NN" "bc"]
           (lit "a" ++ nl :: lit "b" ++ nl :: lit "c")
         = lit "a" ++ nl :: lit "b" ++ nl :: lit "c").
Proof. repeat split; vm_compute; reflexivity. Qed.

End Segmentation.

(** ** Replacement between delimiters *)

(** C5.  The word is pasted into the pattern as it is.  With the word
    "a|t" the first pattern reads as the alternatives " a" and "t ": in the
    text "ba|t c" the occurrence of "a|t" inside the longer token "ba|t",
    which no space or newline delimits, is rewritten. *)
Theorem replace_word_rewrites_inside_token :
  TextForPostprocessing.replace_word_in_text (lit "a|t", lit "R") (lit "ba|t c")
  = Ok (lit "ba| R c").
Proof. vm_compute. reflexivity. Qed.

(** The word "s." matches any token of "s" and one more character. *)
Example replace_word_dot :
  TextForPostprocessing.replace_word_in_text (lit "s.", lit "sanctus") (lit "et si non")
  = Ok (lit "et sanctus non").
Proof. vm_compute. reflexivity. Qed.

(** The word "a" does not alter "cat". *)
Example replace_word_cat :
  TextForPostprocessing.replace_word_in_text (lit "a", lit "R") (lit "cat a cat")
  = Ok (lit "cat R cat").
Proof. vm_compute. reflexivity. Qed.

(** C10.  With the word "a|b" the second pattern reads as the alternatives
    of a newline and "a", and "b ": the occurrence of "a|b" that stands
    alone on the second line of the text is rewritten. *)
Theorem replace_word_rewrites_lone_line :
  TextForPostprocessing.replace_word_in_text (lit "a|b", lit "R")
    (lit "x" ++ nl :: lit "a|b" ++ nl :: lit "y")
  = Ok (lit "x" ++ nl :: lit "R | R" ++ nl :: lit "y").
Proof. vm_compute. reflexivity. Qed.

Section PlainWords.

Implicit Types (w r s t p : str).

Lemma parse_plain w :
  Re.plain w = true -> mapM Re.parse_item w = Some (map Re.Char w).
Proof.
  unfold Re.plain. induction w as [|c w IH]; [done|]. cbn [forallb].
  intros [Hc Hw]%andb_prop. cbn. rewrite IH by done.
  unfold Re.plain_char in Hc. unfold Re.parse_item.
  destruct (bool_decide (c ∈ Re.unmodelled_metachars)); [done|].
  destruct (bool_decide (c = "."%char)); [done|]. done.
Qed.

Lemma split_on_plain w : Re.plain w = true -> PyStr.split_on "|" w = [w].
Proof.
  unfold Re.plain. induction w as [|c w IH]; [done|]. cbn [forallb].
  intros [Hc Hw]%andb_prop. cbn. rewrite IH by done.
  unfold Re.plain_char in Hc. destruct (decide (c = "|"%char)) as [->|]; [done|].
  done.
Qed.

Lemma compile_plain w :
  Re.plain w = true -> w <> [] -> Re.compile w = Some [map Re.Char w].
Proof.
  intros Hplain Hne. unfold Re.compile. rewrite split_on_plain by done.
  cbn. unfold Re.parse_alternative. destruct w as [|c w]; [done|].
  by rewrite parse_plain.
Qed.

Lemma items_match_chars p s :
  Re.items_match (map Re.Char p) s = PyStr.startswith s p.
Proof.
  revert s. induction p as [|a p IH]; intros s; [by destruct s|].
  destruct s as [|b s]; [done|]. cbn. rewrite IH.
  destruct (decide (a = b)) as [->|Hne].
  - by rewrite bool_decide_eq_true_2.
  - by rewrite bool_decide_eq_false_2.
Qed.

Lemma sub_scan_plain p r k s :
  Re.sub_scan [map Re.Char p] r k s = PyStr.replace_scan p r k s.
Proof.
  revert k. induction s as [|c s IH]; intros k; [done|].
  destruct k as [|k]; cbn [Re.sub_scan PyStr.replace_scan]; [|apply IH].
  cbn [Re.match_here]. rewrite items_match_chars.
  destruct (PyStr.startswith (c :: s) p); [|by rewrite IH].
  by rewrite length_map, IH.
Qed.

Lemma plain_terminated p : Re.plain p = true -> Re.unterminated_group p = false.
Proof.
  intros Hplain. unfold Re.unterminated_group.
  rewrite (bool_decide_eq_false_2 ("("%char ∈ p)); [done|].
  intros Hin%list_elem_of_In. unfold Re.plain in Hplain.
  apply (proj1 (forallb_forall _ _) Hplain) in Hin. vm_compute in Hin. done.
Qed.

(** On a plain pattern [re.sub] is [str.replace]. *)
Lemma sub_plain p r text :
  Re.plain p = true -> p <> [] -> "\"%char ∉ r ->
  Re.sub p r text = Ok (PyStr.replace p r text).
Proof.
  intros Hplain Hne Hr. unfold Re.sub. rewrite plain_terminated by done.
  rewrite compile_plain by done.
  rewrite bool_decide_eq_false_2 by done. rewrite sub_scan_plain.
  by destruct p.
Qed.

End PlainWords.

Section DelimitedRewriting.

Implicit Types (w r s t p q : str).

Lemma bind_ok {A B : Type} (a : A) (k : A -> result B) : Ok a ≫= k = k a.
Proof. reflexivity. Qed.

Lemma replace_rewrites_delimited d1 d2 w r s :
  Spec.rewrites_delimited d1 d2 w r s
    (PyStr.replace (TextForPostprocessing.delimited d1 w d2)
       (TextForPostprocessing.delimited d1 r d2) s).
Proof.
  remember (length s) as n eqn:Hn. revert s Hn.
  induction n as [n IH] using lt_wf_ind. intros s ->.
  assert (TextForPostprocessing.delimited d1 w d2 <> []) as Hne by done.
  destruct s as [|c s].
  - rewrite replace_nil by done. constructor.
  - destruct (decide (TextForPostprocessing.delimited d1 w d2 `prefix_of` c :: s))
      as [[s' Hs']|Hno].
    + rewrite Hs', replace_match by done.
      assert (forall u v, TextForPostprocessing.delimited d1 u d2 ++ v
                          = d1 :: u ++ d2 :: v) as Hshape.
      { intros u v. unfold TextForPostprocessing.delimited. cbn.
        by rewrite <- app_assoc. }
      rewrite !Hshape. apply Spec.rewrites_occurrence.
      apply (IH (length s')); [|done].
      rewrite Hs', Hshape. cbn. rewrite length_app. cbn. lia.
    + rewrite replace_cons by done. apply Spec.rewrites_keep.
      apply (IH (length s)); [cbn; lia | done].
Qed.

Lemma plain_delimited d1 w d2 :
  Re.plain_char d1 = true -> Re.plain_char d2 = true -> Re.plain w = true ->
  Re.plain (TextForPostprocessing.delimited d1 w d2) = true.
Proof.
  intros H1 H2 Hw. unfold Re.plain, TextForPostprocessing.delimited.
  cbn [forallb]. rewrite H1, forallb_app. cbn [forallb]. rewrite H2.
  unfold Re.plain in Hw. by rewrite Hw.
Qed.

Lemma no_backslash_delimited d1 r d2 :
  d1 <> "\"%char -> d2 <> "\"%char -> "\"%char ∉ r ->
  "\"%char ∉ TextForPostprocessing.delimited d1 r d2.
Proof.
  intros H1 H2 Hr. unfold TextForPostprocessing.delimited.
  rewrite not_elem_of_cons, not_elem_of_app, not_elem_of_cons.
  repeat split; try done. apply not_elem_of_nil.
Qed.

(** For a word without metacharacters and a replacement without
    backslash, [replace_word_in_text] is three passes of [str.replace]. *)
Lemma replace_word_plain w r text :
  Re.plain w = true -> "\"%char ∉ r ->
  TextForPostprocessing.replace_word_in_text (w, r) text
  = Ok (PyStr.replace (TextForPostprocessing.delimited sp w nl)
          (TextForPostprocessing.delimited sp r nl)
          (PyStr.replace (TextForPostprocessing.delimited nl w sp)
             (TextForPostprocessing.delimited nl r sp)
             (PyStr.replace (TextForPostprocessing.delimited sp w sp)
                (TextForPostprocessing.delimited sp r sp) text))).
Proof.
  intros Hw Hr. unfold TextForPostprocessing.replace_word_in_text. cbn [fst snd].
  assert (forall d1 d2 s, (d1 = sp \/ d1 = nl) -> (d2 = sp \/ d2 = nl) ->
            Re.sub (TextForPostprocessing.delimited d1 w d2)
              (TextForPostprocessing.delimited d1 r d2) s
            = Ok (PyStr.replace (TextForPostprocessing.delimited d1 w d2)
                    (TextForPostprocessing.delimited d1 r d2) s)) as Hsub.
  { intros d1 d2 s H1 H2. apply sub_plain; [|done|].
    - apply plain_delimited; [| |done]; by destruct H1, H2; subst.
    - apply no_backslash_delimited; [| |done]; by destruct H1, H2; subst. }
  rewrite Hsub by auto. rewrite bind_ok, Hsub by auto. rewrite bind_ok. apply Hsub; auto.
Qed.

(** For such a word each pass rewrites occurrences of the word between
    its two delimiters, and nothing else. *)
Lemma replace_word_plain_delimited w r text :
  Re.plain w = true -> "\"%char ∉ r ->
  exists t1 t2 t3,
    TextForPostprocessing.replace_word_in_text (w, r) text = Ok t3
    /\ Spec.rewrites_delimited sp sp w r text t1
    /\ Spec.rewrites_delimited nl sp w r t1 t2
    /\ Spec.rewrites_delimited sp nl w r t2 t3.
Proof.
  intros Hw Hr. rewrite replace_word_plain by done.
  eexists _, _, _. split; [done|].
  split; [|split]; apply replace_rewrites_delimited.
Qed.

Lemma rewrites_after_word d1 d2 w r u q t :
  d1 ∉ u ->
  Spec.rewrites_delimited d1 d2 w r (u ++ nl :: q) t ->
  exists q', t = u ++ nl :: q'.
Proof.
  revert t. induction u as [|a u IH]; intros t Hu H; inversion H; simplify_eq/=.
  - by eexists.
  - by eexists.
  - apply not_elem_of_cons in Hu as [? Hu]. 
    destruct (IH _ Hu ltac:(eassumption)) as [q' ->]. by eexists.
  - apply not_elem_of_cons in Hu as [? ?]. done.
Qed.

(** An occurrence of the word between two newlines stays where it is in
    a pass whose delimiters are not both the newline. *)
Lemma rewrites_lone_line d1 d2 w r s t :
  Spec.rewrites_delimited d1 d2 w r s t ->
  nl ∉ w -> d1 ∉ w -> ~ (d1 = nl /\ d2 = nl) ->
  forall p q, s = p ++ nl :: w ++ nl :: q ->
  exists p' q', t = p' ++ nl :: w ++ nl :: q'.
Proof.
  intros H Hnl Hd1 Hpair. induction H as [|c s t H IH|s t H IH]; intros p q Hs.
  - by destruct p.
  - destruct p as [|c' p]; simplify_eq/=.
    + destruct (rewrites_after_word _ _ _ _ _ _ _ Hd1 H) as [q' ->].
      by exists [], q'.
    + destruct (IH p q eq_refl) as (p' & q' & ->). by exists (c' :: p'), q'.
  - assert (d2 = nl -> s = w ++ nl :: q ->
            exists p' q', d1 :: r ++ d2 :: t = p' ++ nl :: w ++ nl :: q') as Hgood.
    { intros -> ->. destruct (rewrites_after_word _ _ _ _ _ _ _ Hd1 H) as [q' ->].
      exists (d1 :: r), q'. done. }
    change (d1 :: w ++ d2 :: s) with ((d1 :: w) ++ d2 :: s) in Hs.
    apply app_eq_inv in Hs as [(k & Hk1 & Hk2)|(k & Hk1 & Hk2)].
    + destruct k as [|c k]; simplify_eq/=; [by apply Hgood|].
      destruct p as [|c' p]; simplify_eq/=.
      * by destruct Hpair.
      * exfalso. apply Hnl. apply elem_of_app. right. apply list_elem_of_here.
    + destruct k as [|c k]; simplify_eq/=; [by apply Hgood|].
      destruct (IH k q eq_refl) as (p' & q' & ->).
      exists (d1 :: r ++ c :: p'), q'. cbn. by rewrite <- app_assoc.
Qed.

(** For a word without metacharacters, space or newline, an occurrence of
    the word that stands alone on its line is not replaced. *)
Lemma replace_word_plain_lone_line w r p q :
  Re.plain w = true -> Spec.whitespace_free w -> "\"%char ∉ r ->
  exists p' q',
    TextForPostprocessing.replace_word_in_text (w, r) (p ++ nl :: w ++ nl :: q)
    = Ok (p' ++ nl :: w ++ nl :: q').
Proof.
  intros Hw [Hsp Hnl] Hr.
  destruct (replace_word_plain_delimited w r (p ++ nl :: w ++ nl :: q) Hw Hr)
    as (t1 & t2 & t3 & -> & H1 & H2 & H3).
  eapply rewrites_lone_line in H1 as (p1 & q1 & ->); [|done|done|by intros [? ?]|done].
  eapply rewrites_lone_line in H2 as (p2 & q2 & ->); [|done|done|by intros [? ?]|done].
  eapply rewrites_lone_line in H3 as (p3 & q3 & ->); [|done|done|by intros [? ?]|done].
  by exists p3, q3.
Qed.

End DelimitedRewriting.

(** * Further properties of the program *)

(** ** The words of a text *)

Section Words.

Implicit Types (text cur s w : str).

Lemma split_ws_from_words cur s w :
  Forall (fun c => PyStr.is_space c = false) cur ->
  w ∈ PyStr.split_ws_from cur s ->
  w <> [] /\ Forall (fun c => PyStr.is_space c = false) w.
Proof.
  revert cur. induction s as [|c s IH]; intros cur Hcur; cbn.
  - destruct cur as [|a cur]; [by intros ?%elem_of_nil|].
    intros ->%list_elem_of_singleton. split.
    + intros H%(f_equal length). rewrite length_reverse in H. done.
    + by apply Forall_reverse.
  - destruct (PyStr.is_space c) eqn:Hc.
    + destruct cur as [|a cur]; [by apply IH|].
      intros [->|Hin]%elem_of_cons; [|by apply (IH [])].
      split.
      * intros H%(f_equal length). rewrite length_reverse in H. done.
      * by apply Forall_reverse.
    + apply IH. by constructor.
Qed.

Lemma split_ws_from_concat cur s :
  concat (PyStr.split_ws_from cur s)
  = reverse cur ++ filter (fun c => PyStr.is_space c = false) s.
Proof.
  revert cur. induction s as [|c s IH]; intros cur; cbn [PyStr.split_ws_from].
  - destruct cur as [|a cur]; [done|]. cbn [concat]. by rewrite filter_nil.
  - destruct (PyStr.is_space c) eqn:Hc.
    + rewrite filter_cons_False by (by rewrite Hc).
      destruct cur as [|a cur]; [apply IH|]. cbn [concat]. by rewrite IH.
    + rewrite filter_cons_True by done. rewrite IH, reverse_cons.
      by rewrite <- app_assoc.
Qed.

(** X1.  Every word the program iterates over (a word of
    [list(set(text.split()))]) is not empty and has no whitespace
    character, so [word[0].isupper()] of [normalise_text] never raises
    IndexError. *)
Theorem unique_words_not_empty text (unique_words : list str) w :
  TextForPostprocessing.unique_wordlist text unique_words ->
  w ∈ unique_words ->
  w <> []
  /\ Forall (fun c => PyStr.is_space c = false) w
  /\ is_Some (PyStr.first_isupper w).
Proof.
  intros [_ Hwords] Hin. apply Hwords in Hin.
  apply split_ws_from_words in Hin as [Hne Hw]; [|constructor].
  split; [done|]. split; [done|]. destruct w; [done|]. by eexists.
Qed.

(** X2.  [text.split()] loses the whitespace of the text and nothing
    else: the words joined are the text without its whitespace. *)
Theorem split_ws_concat text :
  concat (PyStr.split_ws text) = filter (fun c => PyStr.is_space c = false) text.
Proof. unfold PyStr.split_ws. by rewrite split_ws_from_concat. Qed.

End Words.

(** The words of "foo bar". *)
Lemma unique_words_not_empty_foo :
  lit "foo" <> []
  /\ Forall (fun c => PyStr.is_space c = false) (lit "foo")
  /\ is_Some (PyStr.first_isupper (lit "foo")).
Proof.
  apply (unique_words_not_empty (lit "foo bar") [lit "foo"; lit "bar"]).
  - apply unique_wordlist_foo_bar.
  - apply list_elem_of_here.
Defined.

(** ** What [str.replace] keeps *)

Section ReplaceInvariants.

Implicit Types (old new s t : str).

Lemma replace_same old s : PyStr.replace old old s = s.
Proof.
  destruct old as [|a old].
  - cbn. induction s as [|c s IH]; [done|]. cbn. by f_equal.
  - pose proof (replace_replaced_all (a :: old) (a :: old) s ltac:(done)) as H.
    induction H as [s _|x b b' _ _ IH]; [done|]. by rewrite IH.
Qed.

Lemma replace_empty_pattern s : PyStr.replace [] [] s = s.
Proof. apply replace_same. Qed.

(** A replacement by nothing leaves a sublist. *)
Lemma replace_by_nothing_sublist old s : PyStr.replace old [] s `sublist_of` s.
Proof.
  destruct old as [|a old]; [by rewrite replace_empty_pattern|].
  pose proof (replace_replaced_all (a :: old) [] s ltac:(done)) as H.
  induction H as [s _|x b b' _ _ IH]; [done|].
  apply sublist_app; [done|]. change ([] ++ b') with b'. by apply sublist_inserts_l.
Qed.

(** What a filter sees of the text is kept when it sees the same of [old]
    and [new]. *)
Lemma replace_filter (P : ascii -> Prop) `{!forall c, Decision (P c)} old new s :
  old <> [] -> filter P new = filter P old ->
  filter P (PyStr.replace old new s) = filter P s.
Proof.
  intros Hold Hsame. pose proof (replace_replaced_all old new s Hold) as Hrep.
  induction Hrep as [s _|x b b' _ _ IH]; [done|].
  rewrite !filter_app. by rewrite IH, Hsame.
Qed.

Lemma replace_length_le old new s :
  old <> [] -> length new <= length old ->
  length (PyStr.replace old new s) <= length s.
Proof.
  intros Hold Hlen. pose proof (replace_replaced_all old new s Hold) as H.
  induction H as [s _|x b b' _ _ IH]; [done|].
  rewrite !length_app. lia.
Qed.

Lemma replace_char_elem c new s x :
  x ∈ PyStr.replace [c] new s -> (x ∈ s /\ x <> c) \/ x ∈ new.
Proof.
  induction s as [|a s IH].
  - rewrite replace_nil by done. by intros ?%elem_of_nil.
  - destruct (decide (a = c)) as [->|Hne].
    + change (c :: s) with ([c] ++ s). rewrite replace_match by done.
      intros [Hin|Hin]%elem_of_app; [by right|].
      destruct (IH Hin) as [[? ?]|?]; [left|by right].
      split; [by apply list_elem_of_further | done].
    + rewrite replace_cons; [|done|].
      * intros [->|Hin]%elem_of_cons.
        -- left. split; [apply list_elem_of_here | done].
        -- destruct (IH Hin) as [[? ?]|?]; [left|by right].
           split; [by apply list_elem_of_further | done].
      * intros H%prefix_cons_inv_1. congruence.
Qed.

End ReplaceInvariants.

(** ** Cleaning, any list of strings *)

(** X3.  Whatever strings are listed (also longer than one character, or
    empty), cleaning only deletes: the cleaned text is a sublist of the
    text. *)
Theorem clean_text_sublist (characters : list str) (text : str) :
  TextForPostprocessing.clean_text characters text `sublist_of` text.
Proof.
  unfold TextForPostprocessing.clean_text.
  revert text. induction characters as [|character characters IH]; intros text; [done|].
  cbn [foldl]. etrans; [apply IH|]. apply replace_by_nothing_sublist.
Qed.

(** X4.  When the listed strings are single characters, none of them is
    left in the cleaned text, and every other character of the text is
    still in it. *)
Theorem clean_text_removes_listed (characters : list str) (text : str) (c : ascii) :
  TextForPostprocessing.single_characters characters ->
  ([c] ∈ characters -> c ∉ TextForPostprocessing.clean_text characters text)
  /\ ([c] ∉ characters -> c ∈ text ->
      c ∈ TextForPostprocessing.clean_text characters text).
Proof.
  intros Hsingle. rewrite clean_text_filter by done. split.
  - intros Hin [Hno _]%list_elem_of_filter. done.
  - intros Hno Hin. by apply list_elem_of_filter.
Qed.

(** "," and ";" deleted from "a,b;": "," is gone and "b" is kept. *)
Lemma clean_text_removes_comma :
  (lit "," ∈ [lit ","; lit ";"] ->
   ","%char ∉ TextForPostprocessing.clean_text [lit ","; lit ";"] (lit "a,b;"))
  /\ (lit "," ∉ [lit ","; lit ";"] -> ","%char ∈ lit "a,b;" ->
      ","%char ∈ TextForPostprocessing.clean_text [lit ","; lit ";"] (lit "a,b;")).
Proof.
  apply (clean_text_removes_listed [lit ","; lit ";"] (lit "a,b;") ","%char).
  repeat constructor.
Defined.

(** ** Replacement of ordinary words *)

Section OrdinaryWords.

Implicit Types (w r u p q s t text : str).

Lemma rewrites_prefix_kept d1 d2 w r u q t :
  d1 ∉ u ->
  Spec.rewrites_delimited d1 d2 w r (u ++ q) t ->
  exists q', t = u ++ q' /\ Spec.rewrites_delimited d1 d2 w r q q'.
Proof.
  revert t. induction u as [|a u IH]; intros t Hu H.
  - by exists t.
  - apply not_elem_of_cons in Hu as [Ha Hu].
    inversion H as [|c s t' H'|s t' H']; simplify_eq/=.
    destruct (IH _ Hu H') as (q' & -> & Hq). by exists q'.
Qed.

Lemma rewrites_without_closing d1 d2 w r s t :
  d2 ∉ s -> Spec.rewrites_delimited d1 d2 w r s t -> t = s.
Proof.
  intros Hs H. induction H as [|c s t H IH|s t H IH]; [done| |].
  - apply not_elem_of_cons in Hs as [_ Hs]. f_equal. by apply IH.
  - exfalso. apply Hs. apply list_elem_of_further, elem_of_app. right.
    apply list_elem_of_here.
Qed.

Lemma rewrites_suffix_kept d1 d2 w r s t :
  Spec.rewrites_delimited d1 d2 w r s t ->
  forall p u, d2 ∉ u -> s = p ++ u -> exists p', t = p' ++ u.
Proof.
  induction 1 as [|c s t H IH|s t H IH]; intros p u Hu Hs.
  - symmetry in Hs. apply app_eq_nil in Hs as [-> ->]. by exists [].
  - destruct p as [|c' p]; simplify_eq/=.
    + exists []. cbn. apply not_elem_of_cons in Hu as [_ Hu].
      f_equal. by eapply rewrites_without_closing.
    + destruct (IH p u Hu eq_refl) as [p' ->]. by exists (c' :: p').
  - change (d1 :: w ++ d2 :: s) with ((d1 :: w) ++ d2 :: s) in Hs.
    apply app_eq_inv in Hs as [(k & Hk1 & Hk2)|(k & Hk1 & Hk2)].
    + exfalso. apply Hu. rewrite Hk2. apply elem_of_app. right. apply list_elem_of_here.
    + destruct k as [|c k]; simplify_eq/=.
      * exfalso. apply Hu. apply list_elem_of_here.
      * destruct (IH k u Hu eq_refl) as [p' ->].
        exists (d1 :: r ++ c :: p'). cbn. by rewrite <- app_assoc.
Qed.

(** X5.  For a word without metacharacter of [re] and a replacement
    without backslash, [replace_word_in_text] returns a text, and each of
    its three passes rewrites occurrences of the word between its two
    delimiters only: every other character stays where it is. *)
Theorem replace_word_ordinary w r text :
  Re.plain w = true -> "\"%char ∉ r ->
  exists t1 t2 t3,
    TextForPostprocessing.replace_word_in_text (w, r) text = Ok t3
    /\ Spec.rewrites_delimited sp sp w r text t1
    /\ Spec.rewrites_delimited nl sp w r t1 t2
    /\ Spec.rewrites_delimited sp nl w r t2 t3.
Proof. apply replace_word_plain_delimited. Qed.

(** The word "a" replaced by "R" in "x a y". *)
Lemma replace_word_ordinary_a :
  exists t1 t2 t3,
    TextForPostprocessing.replace_word_in_text (lit "a", lit "R") (lit "x a y") = Ok t3
    /\ Spec.rewrites_delimited sp sp (lit "a") (lit "R") (lit "x a y") t1
    /\ Spec.rewrites_delimited nl sp (lit "a") (lit "R") t1 t2
    /\ Spec.rewrites_delimited sp nl (lit "a") (lit "R") t2 t3.
Proof.
  apply (replace_word_ordinary (lit "a") (lit "R") (lit "x a y")); [reflexivity|].
  change (lit "R") with ["R"%char]. rewrite list_elem_of_singleton. discriminate.
Defined.

(** X6.  For such a word, a text in which the word stands nowhere between
    two spaces, between a newline and a space, or between a space and a
    newline is returned as it is. *)
Theorem replace_word_without_occurrence w r text :
  Re.plain w = true -> "\"%char ∉ r ->
  ~ Spec.occurs_in (TextForPostprocessing.delimited sp w sp) text ->
  ~ Spec.occurs_in (TextForPostprocessing.delimited nl w sp) text ->
  ~ Spec.occurs_in (TextForPostprocessing.delimited sp w nl) text ->
  TextForPostprocessing.replace_word_in_text (w, r) text = Ok text.
Proof.
  intros Hw Hr H1 H2 H3. rewrite replace_word_plain by done.
  rewrite (replace_absent _ _ text) by done.
  rewrite (replace_absent _ _ text) by done.
  by rewrite replace_absent.
Qed.

(** X7.  For such a word that has no space and no newline, an occurrence
    at the very start of the text, with no delimiter before it, and one at
    the very end, with no delimiter after it, are not replaced. *)
Theorem replace_word_keeps_text_ends w r p q :
  Re.plain w = true -> Spec.whitespace_free w -> "\"%char ∉ r ->
  (exists q', TextForPostprocessing.replace_word_in_text (w, r) (w ++ q) = Ok (w ++ q'))
  /\ (exists p', TextForPostprocessing.replace_word_in_text (w, r) (p ++ w) = Ok (p' ++ w)).
Proof.
  intros Hw [Hsp Hnl] Hr. split.
  - destruct (replace_word_plain_delimited w r (w ++ q) Hw Hr)
      as (t1 & t2 & t3 & Heq & H1 & H2 & H3).
    apply rewrites_prefix_kept in H1 as (q1 & E1 & _); [|done]. subst t1.
    apply rewrites_prefix_kept in H2 as (q2 & E2 & _); [|done]. subst t2.
    apply rewrites_prefix_kept in H3 as (q3 & E3 & _); [|done]. subst t3.
    by exists q3.
  - destruct (replace_word_plain_delimited w r (p ++ w) Hw Hr)
      as (t1 & t2 & t3 & Heq & H1 & H2 & H3).
    eapply rewrites_suffix_kept in H1 as (p1 & E1); [|done..]. subst t1.
    eapply rewrites_suffix_kept in H2 as (p2 & E2); [|done..]. subst t2.
    eapply rewrites_suffix_kept in H3 as (p3 & E3); [|done..]. subst t3.
    by exists p3.
Qed.

End OrdinaryWords.

(** The word "a" and the text "cat". *)
Lemma replace_word_without_occurrence_cat :
  TextForPostprocessing.replace_word_in_text (lit "a", lit "R") (lit "cat") = Ok (lit "cat").
Proof.
  assert (forall d1 d2, d1 <> "c"%char ->
            ~ Spec.occurs_in (TextForPostprocessing.delimited d1 (lit "a") d2)
                (lit "cat")) as Hno.
  { intros d1 d2 Hd1 (a & b & H). pose proof (f_equal length H) as Hlen.
    rewrite !length_app in Hlen. cbn in Hlen.
    assert (a = []) as -> by (destruct a; [done | cbn in Hlen; lia]).
    cbn in H. congruence. }
  apply replace_word_without_occurrence; try (by apply Hno); [reflexivity|].
  change (lit "R") with ["R"%char]. rewrite list_elem_of_singleton. discriminate.
Defined.

(** The word "a" at the start of "a y" and at the end of "x a". *)
Lemma replace_word_keeps_text_ends_a :
  (exists q', TextForPostprocessing.replace_word_in_text (lit "a", lit "R")
                (lit "a" ++ lit " y") = Ok (lit "a" ++ q'))
  /\ (exists p', TextForPostprocessing.replace_word_in_text (lit "a", lit "R")
                   (lit "x " ++ lit "a") = Ok (p' ++ lit "a")).
Proof.
  apply (replace_word_keeps_text_ends (lit "a") (lit "R") (lit "x ") (lit " y")).
  - reflexivity.
  - change (lit "a") with ["a"%char]. split; rewrite list_elem_of_singleton; discriminate.
  - change (lit "R") with ["R"%char]. rewrite list_elem_of_singleton. discriminate.
Defined.

(** ** The expansion of all the unique words *)

Section ExpandAll.

Implicit Types (e : Expansion.t) (word : str) (unique_words : list str).

(** X8.  After the loop over the unique words, [expanded_words] has one
    more pair for each word with a marker character and for no other
    word, in the order of the loop; each pair is computed from the
    dictionary and the rules only, whatever was expanded before; the rest
    of the object is as before. *)
Theorem expand_unique_words e unique_words :
  let e' := foldl Expansion.expand_abbreviation e unique_words in
  let expansion word :=
    match Expansion.abbreviation_dictionary e !! word with
    | Some entry => entry
    | None => Expansion.expand_by_rules e word
    end in
  Expansion.expanded_words e'
  = Expansion.expanded_words e
    ++ map (fun word => (word, expansion word))
         (filter (fun word => Expansion.is_abbreviated e word = true) unique_words)
  /\ Expansion.special_characters e' = Expansion.special_characters e
  /\ Expansion.abbreviation_dictionary e' = Expansion.abbreviation_dictionary e
  /\ Expansion.rules e' = Expansion.rules e
  /\ Expansion.expanded_words_errors e' = Expansion.expanded_words_errors e.
Proof.
  cbv zeta. revert e. induction unique_words as [|word rest IH]; intros e.
  - cbn. by rewrite app_nil_r.
  - cbn [foldl]. specialize (IH (Expansion.expand_abbreviation e word)).
    destruct IH as (IH1 & IH2 & IH3 & IH4 & IH5).
    rewrite IH1, IH2, IH3, IH4, IH5. clear IH1 IH2 IH3 IH4 IH5.
    unfold Expansion.expand_abbreviation.
    destruct (Expansion.is_abbreviated e word) eqn:E.
    + rewrite filter_cons_True by done. cbn. rewrite <- app_assoc. done.
    + rewrite filter_cons_False by (by rewrite E). done.
Qed.

Lemma expand_by_rules_elem (rules : list (str * str)) s x :
  Forall (fun rule : str * str => length rule.1 = 1) rules ->
  x ∈ foldl (fun expansion (rule : str * str) => PyStr.replace rule.1 rule.2 expansion)
        s rules ->
  (x ∈ s /\ Forall (fun rule : str * str => rule.1 <> [x]) rules)
  \/ Exists (fun rule : str * str => x ∈ rule.2) rules.
Proof.
  intros Hkeys. revert s. induction Hkeys as [|[k v] rules Hk _ IH]; intros s; cbn [foldl].
  - intros Hin. left. by split.
  - cbn in Hk. destruct k as [|c [|? ?]]; try done. cbn [fst snd].
    intros Hin. destruct (IH _ Hin) as [[Hx Hrules]|Hex].
    + apply replace_char_elem in Hx as [[Hx Hne]|Hx].
      * left. split; [done|]. constructor; [|done]. cbn. congruence.
      * right. by apply Exists_cons_hd.
    + right. by apply Exists_cons_tl.
Qed.

(** X9.  When the key of every rule is one character and no value of a
    rule has the key of a rule in it, the expansion by rules has no key of
    a rule left in it. *)
Theorem expand_by_rules_leaves_no_key e word (key : ascii) (value : str) :
  Forall (fun rule : str * str => length rule.1 = 1) (Expansion.rules e) ->
  (forall rule rule' : str * str,
     rule ∈ Expansion.rules e -> rule' ∈ Expansion.rules e ->
     forall k, rule.1 = [k] -> k ∉ rule'.2) ->
  ([key], value) ∈ Expansion.rules e ->
  key ∉ Expansion.expand_by_rules e word.
Proof.
  intros Hkeys Hvalues Hrule Hin. unfold Expansion.expand_by_rules in Hin.
  apply expand_by_rules_elem in Hin as [[_ Hno]|Hex]; [| |done].
  - rewrite Forall_forall in Hno. by apply (Hno _ Hrule).
  - apply Exists_exists in Hex as (rule' & Hrule' & Hx).
    by apply (Hvalues _ _ Hrule Hrule' key).
Qed.

(** The rules that write "~" as "n" and "#" as "us", on "a~~#". *)
Lemma expand_by_rules_leaves_no_tilde :
  "~"%char ∉ Expansion.expand_by_rules
              (Expansion.init [lit "~"; lit "#"] ∅ [(lit "~", lit "n"); (lit "#", lit "us")])
              (lit "a~~#").
Proof.
  apply (expand_by_rules_leaves_no_key _ _ "~"%char (lit "n")).
  - repeat constructor.
  - intros rule rule' H H' k Hk. cbn in H, H'.
    apply elem_of_cons in H as [->|H]; [|apply list_elem_of_singleton in H as ->];
      apply elem_of_cons in H' as [->|H']; try apply list_elem_of_singleton in H' as ->;
      cbn in Hk; injection Hk as <-; cbv [snd lit list_ascii_of_string];
      rewrite ?elem_of_cons, elem_of_nil; intros H0; repeat destruct H0 as [H0|H0]; done.
  - apply list_elem_of_here.
Defined.

Lemma expand_no_marker e unique_words :
  (forall word, word ∈ unique_words -> Expansion.is_abbreviated e word = false) ->
  foldl Expansion.expand_abbreviation e unique_words = e.
Proof.
  induction unique_words as [|word rest IH]; intros Hno; [done|].
  cbn [foldl]. unfold Expansion.expand_abbreviation at 2.
  rewrite Hno by apply list_elem_of_here.
  apply IH. intros ? ?. apply Hno. by apply list_elem_of_further.
Qed.

(** X10.  When no unique word of the cleaned text has a marker character,
    the expansion stage of [main] gives back the cleaned text, and the
    list of errors is empty. *)
Theorem expansion_stage_without_markers cfg dictionary (order : str -> list str) raw_text :
  let text := TextForPostprocessing.clean_text (characters_to_clean cfg) raw_text in
  (forall word character,
     word ∈ order text -> character ∈ word ->
     [character] ∉ special_characters_dictionary cfg) ->
  Main.expansion_stage cfg dictionary order raw_text = ([], Ok text).
Proof.
  intros text Hno. unfold Main.expansion_stage. fold text.
  rewrite expand_no_marker; [done|].
  intros word Hword. destruct (Expansion.is_abbreviated _ word) eqn:E; [|done].
  apply is_abbreviated_marker in E as (c & Hc & Hmark). cbn in Hmark.
  by destruct (Hno word c).
Qed.

(** The text "et, cetera" cleaned of ",", with the marker "~". *)
Lemma expansion_stage_without_markers_et :
  Main.expansion_stage Sample.tilde_config ∅ PyStr.split_ws (lit "et, cetera")
  = ([], Ok (lit "et cetera")).
Proof.
  apply (expansion_stage_without_markers Sample.tilde_config ∅ PyStr.split_ws
           (lit "et, cetera")).
  intros word character Hword Hc Hmark.
  apply list_elem_of_singleton in Hmark. injection Hmark as ->.
  change (word ∈ [lit "et"; lit "cetera"]) in Hword.
  apply elem_of_cons in Hword as [->|Hword];
    [|apply list_elem_of_singleton in Hword as ->];
    cbv [lit list_ascii_of_string] in Hc;
    rewrite ?elem_of_cons, elem_of_nil in Hc;
    repeat destruct Hc as [Hc|Hc]; done.
Defined.

End ExpandAll.

(** ** What the repair of the segmentation keeps *)

Section SegmentationInvariants.

Implicit Types (df : list lexicon_row) (text inst : str).

Lemma merge_instance_keeps df text inst :
  inst <> [] ->
  filter (fun c => c <> nl) (Normalisation.merge_instance df text inst)
  = filter (fun c => c <> nl) text
  /\ length (Normalisation.merge_instance df text inst) <= length text.
Proof.
  intros Hinst. unfold Normalisation.merge_instance.
  destruct (Lexicon.attested df _); [|done].
  rewrite replace_char_filter. split.
  - apply replace_filter; [done|]. rewrite list_filter_filter.
    apply list_filter_iff. tauto.
  - apply replace_length_le; [done|]. apply length_filter.
Qed.

Lemma filter_same_length (P : ascii -> Prop) `{!forall c, Decision (P c)} (s : str) :
  length s <= length (filter P s) -> filter P s = s.
Proof.
  induction s as [|c s IH]; [done|]. destruct (decide (P c)).
  - rewrite filter_cons_True by done. cbn. intros Hlen. f_equal. apply IH. lia.
  - rewrite filter_cons_False by done. cbn. intros Hlen.
    pose proof (length_filter P s). lia.
Qed.

(** X11.  The repair of the segmentation deletes newlines and does
    nothing else: without their newlines the text returned and the text
    given are the same, and the text returned is not longer.  A text
    without newline is returned as it is. *)
Theorem word_segmentation_deletes_newlines_only df text :
  filter (fun c => c <> nl) (Normalisation.word_segmentation df text)
  = filter (fun c => c <> nl) text
  /\ length (Normalisation.word_segmentation df text) <= length text
  /\ (nl ∉ text -> Normalisation.word_segmentation df text = text).
Proof.
  assert (filter (fun c => c <> nl) (Normalisation.word_segmentation df text)
          = filter (fun c => c <> nl) text
          /\ length (Normalisation.word_segmentation df text) <= length text)
    as [Hfilter Hlen].
  { unfold Normalisation.word_segmentation, Normalisation.findall_linebreaks.
    assert (forall instances : list str, Forall (fun inst => inst <> []) instances ->
            forall current,
              filter (fun c => c <> nl)
                (foldl (Normalisation.merge_instance df) current instances)
              = filter (fun c => c <> nl) current
              /\ length (foldl (Normalisation.merge_instance df) current instances)
                 <= length current) as Hfold.
    { induction 1 as [|inst instances Hinst _ IH]; intros current; [done|].
      cbn [foldl].
      destruct (IH (Normalisation.merge_instance df current inst)) as [-> Hlen].
      destruct (merge_instance_keeps df current inst Hinst) as [-> Hlen'].
      split; [done | lia]. }
    apply Hfold. apply Forall_forall. intros inst Hin.
    apply findall_scan_shape in Hin as (w1 & w2 & -> & _). by destruct w1. }
  split; [done|]. split; [done|]. intros Hno.
  assert (filter (fun c => c <> nl) text = text) as Htext.
  { apply filter_same_length. clear Hfilter Hlen.
    induction text as [|c text IH]; [done|].
    apply not_elem_of_cons in Hno as [Hc Hno].
    rewrite filter_cons_True by done. cbn. specialize (IH Hno). lia. }
  rewrite Htext in Hfilter.
  assert (filter (fun c => c <> nl) (Normalisation.word_segmentation df text)
          = Normalisation.word_segmentation df text) as Hsame.
  { apply filter_same_length. by rewrite Hfilter. }
  by rewrite <- Hsame.
Qed.

End SegmentationInvariants.

(** ** Lookups in the lexicon *)

Section Lookups.

Implicit Types (df : list lexicon_row) (w : str) (row : lexicon_row).

Lemma lower_char_idempotent c : PyStr.lower_char (PyStr.lower_char c) = PyStr.lower_char c.
Proof. by destruct c as [[] [] [] [] [] [] [] []]. Qed.

Lemma lower_idempotent w : PyStr.lower (PyStr.lower w) = PyStr.lower w.
Proof.
  unfold PyStr.lower. induction w as [|c w IH]; [done|].
  cbn. by rewrite lower_char_idempotent, IH.
Qed.

Lemma attested_row df w :
  Lexicon.attested df w = true <-> exists row, row ∈ df /\ WF_Name row = w.
Proof.
  unfold Lexicon.attested. rewrite existsb_exists. split.
  - intros (row & Hin & Hrow). exists row. split; [by apply list_elem_of_In|].
    by apply bool_decide_eq_true in Hrow.
  - intros (row & Hin & Hrow). exists row. split; [by apply list_elem_of_In|].
    by apply bool_decide_eq_true.
Qed.

(** X12.  [proof_read_word] looks the expansion up in lower case among the
    word forms of the lexicon, which are compared as they are.  So its
    answer is the same for an expansion and for the expansion in lower
    case, whatever the original of the pair is; when the answer is True,
    the lexicon has a row whose word form is the expansion in lower case,
    and this word form is its own lower case; and a lexicon whose word
    forms all have a capital letter attests no expansion. *)
Theorem proof_read_word_lower df (word : str * str) :
  (forall original, Lexicon.proof_read_word df (original, PyStr.lower word.2)
                    = Lexicon.proof_read_word df word)
  /\ (Lexicon.proof_read_word df word = true
      <-> exists row, row ∈ df /\ WF_Name row = PyStr.lower word.2
                      /\ PyStr.lower (WF_Name row) = WF_Name row)
  /\ ((forall row, row ∈ df -> PyStr.lower (WF_Name row) <> WF_Name row) ->
      Lexicon.proof_read_word df word = false).
Proof.
  unfold Lexicon.proof_read_word. cbn [snd].
  assert (forall w, (if Lexicon.attested df w then true else false)
                    = Lexicon.attested df w) as Hif
    by (intros w; by destruct (Lexicon.attested df w)).
  rewrite !Hif. split; [|split].
  - intros _. by rewrite lower_idempotent.
  - rewrite attested_row. split.
    + intros (row & Hin & Hrow). exists row. split; [done|]. split; [done|].
      rewrite Hrow. apply lower_idempotent.
    + intros (row & Hin & Hrow & _). by exists row.
  - intros Hcapital. destruct (Lexicon.attested df (PyStr.lower word.2)) eqn:E; [|done].
    apply attested_row in E as (row & Hin & Hrow).
    destruct (Hcapital row Hin). rewrite Hrow. apply lower_idempotent.
Qed.

(** The expansion "Ægyptus" is looked up as "ægyptus"; a lexicon that
    writes the word form with the capital does not attest it. *)
Example proof_read_word_aegyptus :
  let capital := ascii_of_nat 198 in
  let small := ascii_of_nat 230 in
  let row w := {| WF_Name := w; SL_Name := lit "aegyptus@NE"; L_Name := lit "aegyptus" |} in
  Lexicon.proof_read_word [row (small :: lit "gyptus")] (lit "x", capital :: lit "gyptus") = true
  /\ Lexicon.proof_read_word [row (capital :: lit "gyptus")] (lit "x", capital :: lit "gyptus")
     = false.
Proof. split; vm_compute; reflexivity. Qed.

(** X13.  The row [normalise_text] takes for a word is the first row of
    the lexicon whose word form is the word in lower case: the rows
    before it have another word form, and rows after it with the same
    word form are not used. *)
Theorem first_row_is_first df word row :
  Lexicon.first_row df (PyStr.lower word) = Some row ->
  exists before after,
    df = before ++ row :: after
    /\ WF_Name row = PyStr.lower word
    /\ Forall (fun earlier => WF_Name earlier <> PyStr.lower word) before.
Proof.
  unfold Lexicon.first_row. induction df as [|r df IH]; [done|]. cbn.
  case_bool_decide as Hr.
  - intros [= ->]. by exists [], df.
  - intros Hfind. destruct (IH Hfind) as (before & after & -> & Hrow & Hbefore).
    exists (r :: before), after. split; [done|]. split; [done|]. by constructor.
Qed.

(** Two rows for "amat": the first is taken, also for "Amat". *)
Lemma first_row_is_first_amat :
  exists before after,
    [Sample.row "amat" "amo@V" "amo"; Sample.row "amat" "amor@NN" "amor"]
    = before ++ Sample.row "amat" "amo@V" "amo" :: after
    /\ WF_Name (Sample.row "amat" "amo@V" "amo") = PyStr.lower (lit "Amat")
    /\ Forall (fun earlier => WF_Name earlier <> PyStr.lower (lit "Amat")) before.
Proof.
  apply (first_row_is_first
           [Sample.row "amat" "amo@V" "amo"; Sample.row "amat" "amor@NN" "amor"]
           (lit "Amat")).
  reflexivity.
Defined.

End Lookups.

(** ** The roots *)

Section Roots.

Implicit Types (superlemma lemma base word s : str).

Lemma split_on_not_nil sep s : PyStr.split_on sep s <> [].
Proof.
  destruct s as [|c s]; [done|]. cbn.
  destruct (decide (c = sep)); [done|]. by destruct (PyStr.split_on sep s).
Qed.

Lemma split_on_without sep s : sep ∉ s -> PyStr.split_on sep s = [s].
Proof.
  induction s as [|c s IH]; [done|]. intros [Hc Hs]%not_elem_of_cons. cbn.
  rewrite decide_False by done. by rewrite IH.
Qed.

Lemma split_on_with sep s :
  sep ∈ s -> exists a b rest, PyStr.split_on sep s = a :: b :: rest.
Proof.
  induction s as [|c s IH]; [by intros ?%elem_of_nil|]. cbn.
  destruct (decide (c = sep)) as [->|Hne].
  - intros _. pose proof (split_on_not_nil sep s).
    destruct (PyStr.split_on sep s) as [|b rest]; [done|]. by exists [], b, rest.
  - intros [?|Hin]%elem_of_cons; [done|].
    destruct (IH Hin) as (a & b & rest & ->). by exists (c :: a), b, rest.
Qed.

Lemma split_on_one sep s b : PyStr.split_on sep s = [b] -> s = b.
Proof.
  revert b. induction s as [|c s IH]; intros b; cbn; [congruence|].
  destruct (decide (c = sep)).
  - pose proof (split_on_not_nil sep s). intros [= <- ?]. done.
  - destruct (PyStr.split_on sep s) as [|w ws] eqn:E; [by destruct (split_on_not_nil sep s)|].
    intros [= <- ->]. f_equal. by apply IH.
Qed.

Lemma split_on_two sep s a b : PyStr.split_on sep s = [a; b] -> s = a ++ sep :: b.
Proof.
  revert a. induction s as [|c s IH]; intros a; cbn; [done|].
  destruct (decide (c = sep)) as [->|Hne].
  - intros [= <- H]. cbn. f_equal. by apply split_on_one in H.
  - destruct (PyStr.split_on sep s) as [|w ws] eqn:E; [done|].
    intros [= <- ->]. cbn. f_equal. by apply IH.
Qed.

Lemma base_of_prefix superlemma :
  Normalisation.base_of superlemma `prefix_of` superlemma.
Proof.
  unfold Normalisation.base_of. induction superlemma as [|c s IH]; [done|]. cbn.
  destruct (decide (c = "@"%char)); [apply prefix_nil|].
  destruct (PyStr.split_on "@" s) as [|w ws]; cbn in *.
  - apply prefix_cons, prefix_nil.
  - by apply prefix_cons.
Qed.

Lemma slice_to_neg_prefix k s : PyStr.slice_to_neg k s `prefix_of` s.
Proof. apply prefix_take. Qed.

Lemma strip_endings_prefix (endings : list str) superlemma lemma :
  (foldl Normalisation.strip_ending (superlemma, lemma) endings).1 `prefix_of` superlemma
  /\ (foldl Normalisation.strip_ending (superlemma, lemma) endings).2 `prefix_of` lemma.
Proof.
  revert superlemma lemma. induction endings as [|ending endings IH];
    intros superlemma lemma; [done|].
  cbn [foldl]. unfold Normalisation.strip_ending at 2 4. cbn [fst snd].
  destruct (PyStr.endswith superlemma ending); [|apply IH].
  destruct (IH (PyStr.slice_to_neg (length ending) superlemma)
              (PyStr.slice_to_neg (length ending) lemma)) as [H1 H2].
  split; (etrans; [eassumption | apply slice_to_neg_prefix]).
Qed.

Lemma roots_for_prefix wordform superlemma lemma :
  (Normalisation.roots_for wordform superlemma lemma).1
    `prefix_of` Normalisation.base_of superlemma
  /\ (Normalisation.roots_for wordform superlemma lemma).2 `prefix_of` lemma.
Proof.
  unfold Normalisation.roots_for. repeat case_decide; cbn [fst snd];
    try (split; (apply slice_to_neg_prefix || done)).
  apply strip_endings_prefix.
Qed.

(** X14.  The roots are computed exactly when the super-lemma has an
    "@": without one, [superlemma.split("@")[1]] raises IndexError.  With
    one, whatever the tag, the super-lemma root is a prefix of the base
    (itself the super-lemma up to its first "@") and the lemma root is a
    prefix of the lemma: stripping only removes characters at the end. *)
Theorem root_strip_prefixes superlemma lemma :
  ("@"%char ∉ superlemma ->
   Normalisation.root_strip superlemma lemma = Raise IndexError)
  /\ ("@"%char ∈ superlemma ->
      exists wordform superlemma_root lemma_root,
        Normalisation.root_strip superlemma lemma
        = Ok (wordform, (superlemma_root, lemma_root))
        /\ superlemma_root `prefix_of` Normalisation.base_of superlemma
        /\ Normalisation.base_of superlemma `prefix_of` superlemma
        /\ lemma_root `prefix_of` lemma).
Proof.
  unfold Normalisation.root_strip. split.
  - intros Hno. by rewrite split_on_without.
  - intros Hin. destruct (split_on_with _ _ Hin) as (a & wordform & rest & ->). cbn.
    destruct (roots_for_prefix wordform superlemma lemma) as [H1 H2].
    destruct (Normalisation.roots_for wordform superlemma lemma) as [r1 r2].
    exists wordform, r1, r2. split; [done|]. split; [done|].
    split; [apply base_of_prefix | done].
Qed.

(** X15.  For a super-lemma that is a base, "@" and the tag [PRO], one
    character is stripped from the base and from the lemma, also when the
    base ends in "er": the test of that ending reads the super-lemma with
    its tag, which ends in "RO". *)
Theorem pronoun_root_strips_one superlemma lemma base :
  PyStr.split_on "@" superlemma = [base; lit "PRO"] ->
  Normalisation.root_strip superlemma lemma
  = Ok (lit "PRO", (PyStr.slice_to_neg 1 base, PyStr.slice_to_neg 1 lemma)).
Proof.
  intros Hsplit. unfold Normalisation.root_strip. rewrite Hsplit. cbn [lookup list_lookup].
  unfold Normalisation.roots_for, Normalisation.base_of. rewrite Hsplit. cbn [hd].
  rewrite decide_False by done. rewrite decide_False by done.
  rewrite decide_True by done.
  apply split_on_two in Hsplit as ->.
  assert (PyStr.endswith (base ++ "@"%char :: lit "PRO") (lit "er") = false) as ->; [|done].
  unfold PyStr.endswith. rewrite reverse_app. reflexivity.
Qed.

(** The pronoun "alter": the root is "alte". *)
Lemma pronoun_root_alter :
  Normalisation.root_strip (lit "alter@PRO") (lit "alter")
  = Ok (lit "PRO", (lit "alte", lit "alte")).
Proof. exact (pronoun_root_strips_one (lit "alter@PRO") (lit "alter") (lit "alter") eq_refl). Defined.

End Roots.

(** ** The normalised word *)

Section NormalisedWord.

Implicit Types (superlemma lemma word rest : str) (row : lexicon_row).

Lemma strip_endings_same (endings : list str) base :
  (foldl Normalisation.strip_ending (base, base) endings).1
  = (foldl Normalisation.strip_ending (base, base) endings).2.
Proof.
  revert base. induction endings as [|ending endings IH]; intros base; [done|].
  cbn [foldl]. unfold Normalisation.strip_ending at 2 4. cbn [fst snd].
  destruct (PyStr.endswith base ending); apply IH.
Qed.

Lemma roots_for_same wordform superlemma :
  (Normalisation.roots_for wordform superlemma (Normalisation.base_of superlemma)).1
  = (Normalisation.roots_for wordform superlemma (Normalisation.base_of superlemma)).2.
Proof.
  unfold Normalisation.roots_for. repeat case_decide; cbn [fst snd]; try done.
  apply strip_endings_same.
Qed.

(** X16.  When the lemma of a row is the base of its super-lemma, the
    two roots are the same and the surface substitution changes nothing:
    the normalised word is the word itself, but for the endings of a
    verb. *)
Theorem normalise_word_same_lemma cfg word row wordform :
  word <> [] ->
  PyStr.split_on "@" (SL_Name row) !! 1 = Some wordform ->
  L_Name row = Normalisation.base_of (SL_Name row) ->
  exists record,
    Normalisation.normalise_word cfg word row
    = Ok (Normalisation.normalise_verb_ending cfg wordform word, record)
    /\ Superlemma_root record = Lemma_root record.
Proof.
  intros Hword Htag Hlemma. unfold Normalisation.normalise_word, Normalisation.root_strip.
  rewrite Htag, Hlemma. cbn [mbind result_bind].
  pose proof (roots_for_same wordform (SL_Name row)) as Hsame.
  destruct (Normalisation.roots_for wordform (SL_Name row) _) as [r1 r2].
  cbn [fst snd] in Hsame. subst r2.
  unfold Normalisation.surface_substitution. destruct word as [|c w]; [done|].
  cbn [PyStr.first_isupper]. destruct (PyStr.is_upper c);
    rewrite replace_same; cbn; by eexists.
Qed.

(** The adverb "inde", with the lemma "inde" and the super-lemma "inde@ADV". *)
Lemma normalise_word_inde :
  exists record,
    Normalisation.normalise_word Sample.empty_config (lit "Inde")
      (Sample.row "inde" "inde@ADV" "inde")
    = Ok (Normalisation.normalise_verb_ending Sample.empty_config (lit "ADV") (lit "Inde"),
          record)
    /\ Superlemma_root record = Lemma_root record.
Proof.
  apply (normalise_word_same_lemma Sample.empty_config (lit "Inde")
           (Sample.row "inde" "inde@ADV" "inde") (lit "ADV")); done.
Defined.

End NormalisedWord.

(** ** The loop of [normalise_text] *)

Section NormaliseLoop.

Implicit Types (df : list lexicon_row) (st : Normalisation.state) (word : str)
  (unique_words errors : list str).





End NormaliseLoop.

Section NormaliseTurns.

Implicit Types (df : list lexicon_row) (st : Normalisation.state) (word : str)
  (unique_words errors : list str) (record : csv_row).

(** X19.  Once a word has been normalised, a word that is not in the
    lexicon does not stop the loop: each such word is put on the list of
    errors, the characters of the text are canonicalised once more, and
    the record of the last normalised word is written to the CSV file
    again. *)
Theorem misses_after_a_record df cfg unique_words st record :
  Normalisation.dict_normalization st = Some record ->
  Forall (fun word => Lexicon.attested df (PyStr.lower word) = false) unique_words ->
  Normalisation.normalise_loop df cfg unique_words st
  = ({| Normalisation.sample_text :=
          Nat.iter (length unique_words) (Normalisation.normalise_characters cfg)
            (Normalisation.sample_text st);
        Normalisation.normalisation_error_list :=
          Normalisation.normalisation_error_list st ++ unique_words;
        Normalisation.dict_normalization := Some record;
        Normalisation.csv_rows :=
          Normalisation.csv_rows st ++ replicate (length unique_words) record |},
     Ok ()).
Proof.
  intros Hrecord Hmiss. revert st Hrecord.
  induction Hmiss as [|word rest Hword _ IH]; intros st Hrecord.
  - cbn. rewrite !app_nil_r. by destruct st; cbn in *; subst.
  - cbn [length]. rewrite Nat.iter_succ_r.
    cbn [Normalisation.normalise_loop]. unfold Normalisation.normalise_turn.
    rewrite (first_row_unattested _ _ Hword).
    unfold Normalisation.end_of_turn. cbn. rewrite Hrecord.
    rewrite IH by done. cbn. by rewrite <- !app_assoc.
Qed.

(** After the record of "jam", the words "foo" and "bar". *)
Lemma misses_after_jam :
  let record :=
    {| Wort := lit "jam"; Superlemma := lit "iam@ADV"; Lemma_ := lit "jam";
       Superlemma_root := lit "iam"; Lemma_root := lit "jam";
       Wortform := lit "ADV"; Normalisierung := lit "iam" |} in
  let st :=
    {| Normalisation.sample_text := lit "iam foo bar";
       Normalisation.normalisation_error_list := [];
       Normalisation.dict_normalization := Some record;
       Normalisation.csv_rows := [record] |} in
  Normalisation.normalise_loop [Sample.row "jam" "iam@ADV" "jam"] Sample.empty_config
    [lit "foo"; lit "bar"] st
  = ({| Normalisation.sample_text := lit "iam foo bar";
        Normalisation.normalisation_error_list := [lit "foo"; lit "bar"];
        Normalisation.dict_normalization := Some record;
        Normalisation.csv_rows := [record; record; record] |},
     Ok ()).
Proof.
  intros record st.
  rewrite (misses_after_a_record [Sample.row "jam" "iam@ADV" "jam"] Sample.empty_config
             [lit "foo"; lit "bar"] st record eq_refl); [reflexivity|].
  repeat constructor.
Defined.

(** A word whose row is left by [continue]: its super-lemma is a
    stopword, or the last characters of base and lemma differ. *)
Lemma skipped_turn df cfg st word row :
  Lexicon.first_row df (PyStr.lower word) = Some row ->
  SL_Name row ∈ Normalisation.stopwords
  \/ Normalisation.consistent (SL_Name row) (L_Name row) = false ->
  Normalisation.normalise_turn df cfg st word = (st, Ok ()).
Proof.
  intros Hrow Hskip. unfold Normalisation.normalise_turn. rewrite Hrow.
  case_bool_decide as Hstop; [done|]. destruct Hskip as [? | ->]; done.
Qed.

(** X20.  Words whose super-lemma is a stopword, and words whose lemma
    and super-lemma base end in different characters, are passed over:
    when all the words are such words, [normalise_text] raises nothing,
    leaves the list of errors as it is, and returns the text with its
    characters canonicalised once, the text not being touched in the
    loop. *)
Theorem skipped_words_are_passed_over df cfg unique_words errors text :
  Forall (fun word =>
            exists row,
              Lexicon.first_row df (PyStr.lower word) = Some row
              /\ (SL_Name row ∈ Normalisation.stopwords
                  \/ Normalisation.consistent (SL_Name row) (L_Name row) = false))
    unique_words ->
  Normalisation.normalise_text df cfg unique_words errors text
  = (errors, Ok (Normalisation.normalise_characters cfg text)).
Proof.
  intros Hskip. unfold Normalisation.normalise_text.
  assert (forall st, Normalisation.normalise_loop df cfg unique_words st = (st, Ok ()))
    as ->; [|done].
  induction Hskip as [|word rest (row & Hrow & Hword) _ IH]; intros st; [done|].
  cbn [Normalisation.normalise_loop]. by rewrite (skipped_turn _ _ _ _ row).
Qed.

(** The stopword "a@AP" and a row whose lemma ends in another character
    than the base of its super-lemma. *)
Lemma skipped_words_a_and_rex :
  Normalisation.normalise_text
    [Sample.row "a" "a@AP" "a"; Sample.row "regis" "rex@NN" "regs"] Sample.empty_config
    [lit "a"; lit "regis"] [] (lit "a regis")
  = ([], Ok (Normalisation.normalise_characters Sample.empty_config (lit "a regis"))).
Proof.
  apply skipped_words_are_passed_over. repeat constructor.
  - eexists. split; [reflexivity|]. left. apply list_elem_of_further, list_elem_of_here.
  - eexists. split; [reflexivity|]. right. reflexivity.
Defined.

(** X21.  A word whose row has a super-lemma without "@" (and a lemma
    that ends as the super-lemma does) stops [normalise_text] with
    IndexError: the tag is read as the second part of the super-lemma. *)
Theorem untagged_superlemma_raises df cfg word rest errors text row :
  Lexicon.first_row df (PyStr.lower word) = Some row ->
  "@"%char ∉ SL_Name row ->
  Normalisation.consistent (SL_Name row) (L_Name row) = true ->
  Normalisation.normalise_text df cfg (word :: rest) errors text
  = (errors, Raise IndexError).
Proof.
  intros Hrow Hno Hconsistent. unfold Normalisation.normalise_text.
  cbn [Normalisation.normalise_loop]. unfold Normalisation.normalise_turn.
  rewrite Hrow, Hconsistent. rewrite bool_decide_eq_false_2.
  - unfold Normalisation.normalise_word, Normalisation.root_strip.
    by rewrite split_on_without.
  - intros Hstop. apply Hno. unfold Normalisation.stopwords in Hstop.
    rewrite !elem_of_cons, elem_of_nil in Hstop.
    destruct Hstop as [->|[->|[->|[]]]]; cbv [lit list_ascii_of_string];
      rewrite !elem_of_cons; tauto.
Qed.

(** The row of "amat" with the super-lemma "amo", without a tag. *)
Lemma untagged_superlemma_amo :
  Normalisation.normalise_text [Sample.row "amat" "amo" "amo"] Sample.empty_config
    [lit "amat"; lit "et"] [] (lit "amat et")
  = ([], Raise IndexError).
Proof.
  apply (untagged_superlemma_raises _ _ _ _ _ _ (Sample.row "amat" "amo" "amo"));
    [reflexivity| |reflexivity].
  cbv [Sample.row SL_Name lit list_ascii_of_string]. rewrite !elem_of_cons, elem_of_nil.
  intros [H|[H|[H|[]]]]; discriminate.
Defined.

End NormaliseTurns.
